(** * streamparse.storm.bolt: the Bolt and BatchingBolt runtime

    A shallow embedding of [streamparse/storm/bolt.py].  A bolt is a
    Python object whose methods mutate its fields, write commands to
    Storm and may raise; every method is modelled as a function from
    the bolt's fields to an outcome, the fields afterwards and the
    list of observable events the call produced, in order.

    What lives outside [bolt.py] is taken as it is used there:
    - [send_message], [read_task_ids], [read_tuple], [raise_exception]
      and [read_handshake] belong to [Component]; each call is recorded
      as an event, and what the two reads return is given by the
      section variables [task_ids_of] and [inbound];
    - the user's hooks ([initialize], [process], [process_tick],
      [group_key], [process_batch]) are section variables acting on a
      user state of their own; a hook either returns or raises.  The
      runtime's trace records that a hook was called, not what the
      hook wrote to Storm by itself;
    - [log.error] writes to the log only and is left out. *)

From Stdlib Require Import ZArith List String Bool Lia Arith.
Import ListNotations.
Open Scope string_scope.
Open Scope list_scope.
Open Scope Z_scope.

(** ** Python values *)

(** JSON-serializable values; [PyList] stands for both [list] and
    [tuple], the two types [isinstance(x, (list, tuple))] accepts. *)
#[warnings="-register-all"]
Inductive PyVal : Type :=
| PyNone
| PyBool (b : bool)
| PyInt (z : Z)
| PyStr (s : string)
| PyList (l : list PyVal).

(** [x is True], [x is False], [x is None]: identity with the singletons. *)
Definition is_True (v : PyVal) : bool :=
  match v with PyBool true => true | _ => false end.
Definition is_False (v : PyVal) : bool :=
  match v with PyBool false => true | _ => false end.

(** ** Tuples ([component.Tuple]) *)

Record Tuple : Type := mkTuple {
  id : string;
  component : string;
  stream : string;
  task : Z;
  values : list PyVal
}.

(** An argument that is either a [Tuple] or a raw id
    ([x.id if isinstance(x, Tuple) else x]). *)
Inductive TupleOrId : Type :=
| IsTuple (t : Tuple)
| IsId (i : string).

Definition id_of (a : TupleOrId) : string :=
  match a with IsTuple t => id t | IsId i => i end.

(** ** Exceptions and outcomes *)

Inductive Exc : Type :=
| TypeError
| IndexError
| NotImplementedError
| UserError (name : string).

(** How a call ends: it returns, an [Exception] propagates, or
    [sys.exit(status)] was called ([SystemExit] is not an [Exception],
    so [except Exception] lets it through). *)
Inductive Outcome (A : Type) : Type :=
| Ok (a : A)
| Raise (e : Exc)
| Exit (status : Z).
Arguments Ok {A} a.
Arguments Raise {A} e.
Arguments Exit {A} status.

(** What a user hook does: it returns a value or raises. *)
Inductive Result (A : Type) : Type :=
| Returned (a : A)
| Raised (e : Exc).
Arguments Returned {A} a.
Arguments Raised {A} e.

(** ** Messages written to Storm *)

(** The dict built by [emit]; a key that is not set is [None] here. *)
Record EmitMsg : Type := mkEmit {
  msg_tuple : PyVal;
  msg_anchors : list string;
  msg_stream : option string;
  msg_task : option Z;
  msg_need_task_ids : option PyVal
}.

Inductive Msg : Type :=
| MEmit (m : EmitMsg)     (* {'command': 'emit', ...} *)
| MAck (i : string)       (* {'command': 'ack', 'id': i} *)
| MFail (i : string)      (* {'command': 'fail', 'id': i} *)
| MSync.                  (* {'command': 'sync'} *)

Inductive Lock : Type := ReaderLock | WriterLock.

(** ** Sample tuples and hooks

    The data on which the model is run in the scenario and in the
    instances at the end: groups are keyed by [None] or a string,
    and the hooks keep no state. *)

Definition GroupKey : Type := option string.

Definition GroupKey_eq_dec (x y : GroupKey) : {x = y} + {x <> y}.
Proof. decide equality. apply string_dec. Defined.

(** [read_tuple] gives the tuples of [l] one after the other and
    raises when Storm has no more to give. *)
Definition inbound_of (l : list Tuple) (n : nat) : Result Tuple :=
  nth n (map Returned l) (Raised (UserError "StormWentAway")).

Definition no_task_ids (n : nat) : list Z := [].

(** The hooks as [Bolt] and [BatchingBolt] define them. *)
Definition initialize_pass (u : unit) : unit * Result unit := (u, Returned tt).
Definition process_tick_pass (u : unit) (freq : PyVal) : unit * Result unit :=
  (u, Returned tt).
Definition group_key_None (u : unit) (tup : Tuple) : unit * Result GroupKey :=
  (u, Returned None).

(** Hooks of a user's subclass. *)
Definition process_batch_pass (u : unit) (key : GroupKey) (tups : list Tuple)
    : unit * Result unit := (u, Returned tt).

(** [group_key] gives the first value of the tuple when it is a
    string, and raises otherwise. *)
Definition group_key_first (u : unit) (tup : Tuple) : unit * Result GroupKey :=
  match values tup with
  | PyStr w :: _ => (u, Returned (Some w))
  | _ => (u, Raised IndexError)
  end.

(** [process_batch] raises on the group ["b"]. *)
Definition process_batch_b (u : unit) (key : GroupKey) (tups : list Tuple)
    : unit * Result unit :=
  match key with
  | Some "b" => (u, Raised (UserError "boom"))
  | _ => (u, Returned tt)
  end.

(** [process] raises on the tuple whose id is ["bad"]. *)
Definition process_bad (u : unit) (tup : Tuple) : unit * Result unit :=
  if String.eqb (id tup) "bad" then (u, Raised (UserError "boom"))
  else (u, Returned tt).

(** [initialize] raises. *)
Definition initialize_fails (u : unit) : unit * Result unit :=
  (u, Raised (UserError "no connection")).

Definition word (i w : string) : Tuple := mkTuple i "spout" "default" 3 [PyStr w].
Definition heartbeat_tuple : Tuple := mkTuple "hb" "__system" "__heartbeat" (-1) [].
Definition empty_tick : Tuple := mkTuple "tick0" "__system" "__tick" (-1) [].
Definition tick_tuple : Tuple := mkTuple "tick" "__system" "__tick" (-1) [PyInt 1].
Definition bad_tuple : Tuple := mkTuple "bad" "spout" "default" 3 [].

Definition t1 : Tuple := word "t1" "x".
Definition t2 : Tuple := word "t2" "y".
Definition t3 : Tuple := word "t3" "z".
Definition ta : Tuple := word "1" "a".
Definition tb : Tuple := word "2" "b".
Definition tc : Tuple := word "3" "c".

Section Runtime.

(** Group keys: any hashable value, compared by equality. *)
Variable Key : Type.
Variable Key_eq_dec : forall x y : Key, {x = y} + {x <> y}.

(** The state the user's hooks keep for themselves. *)
Variable U : Type.

(** ** Events *)

Inductive Event : Type :=
| ReadHandshake
| ReadTuple
| Send (m : Msg)
| ReadTaskIds
| RaiseException (e : Exc) (tups : list Tuple)
| Acquire (l : Lock)
| Release (l : Lock)
| CallInitialize
| CallProcess (t : Tuple)
| CallProcessTick (freq : PyVal)
| CallGroupKey (t : Tuple)
| CallProcessBatch (key : Key) (tups : list Tuple).

(** ** The bolt's fields *)

Record Bolt : Type := mkBolt {
  auto_anchor : bool;
  auto_ack : bool;
  auto_fail : bool;
  ticks_between_batches : Z;
  _current_tups : list Tuple;
  _batches : list (Key * list Tuple);   (* defaultdict(list), in iteration order *)
  _tick_counter : Z;
  tuples_read : nat;                     (* calls of read_tuple so far *)
  task_ids_read : nat;                   (* calls of read_task_ids so far *)
  user : U
}.

Definition set_current_tups (l : list Tuple) (s : Bolt) : Bolt :=
  mkBolt (auto_anchor s) (auto_ack s) (auto_fail s) (ticks_between_batches s)
         l (_batches s) (_tick_counter s) (tuples_read s) (task_ids_read s) (user s).
Definition set_batches (b : list (Key * list Tuple)) (s : Bolt) : Bolt :=
  mkBolt (auto_anchor s) (auto_ack s) (auto_fail s) (ticks_between_batches s)
         (_current_tups s) b (_tick_counter s) (tuples_read s) (task_ids_read s) (user s).
Definition set_tick_counter (c : Z) (s : Bolt) : Bolt :=
  mkBolt (auto_anchor s) (auto_ack s) (auto_fail s) (ticks_between_batches s)
         (_current_tups s) (_batches s) c (tuples_read s) (task_ids_read s) (user s).
Definition set_tuples_read (n : nat) (s : Bolt) : Bolt :=
  mkBolt (auto_anchor s) (auto_ack s) (auto_fail s) (ticks_between_batches s)
         (_current_tups s) (_batches s) (_tick_counter s) n (task_ids_read s) (user s).
Definition set_task_ids_read (n : nat) (s : Bolt) : Bolt :=
  mkBolt (auto_anchor s) (auto_ack s) (auto_fail s) (ticks_between_batches s)
         (_current_tups s) (_batches s) (_tick_counter s) (tuples_read s) n (user s).
Definition set_user (u : U) (s : Bolt) : Bolt :=
  mkBolt (auto_anchor s) (auto_ack s) (auto_fail s) (ticks_between_batches s)
         (_current_tups s) (_batches s) (_tick_counter s) (tuples_read s)
         (task_ids_read s) u.

(** ** The monad of methods

    A method maps the fields to an outcome, the fields afterwards and
    the events produced.  The fields survive an exception, as a Python
    object does. *)

Definition M (A : Type) : Type := Bolt -> Outcome A * Bolt * list Event.

Definition ret {A} (a : A) : M A := fun s => (Ok a, s, []).

Definition bind {A B} (m : M A) (k : A -> M B) : M B :=
  fun s =>
    match m s with
    | (Ok a, s1, ev1) =>
        match k a s1 with (o, s2, ev2) => (o, s2, ev1 ++ ev2) end
    | (Raise e, s1, ev1) => (Raise e, s1, ev1)
    | (Exit n, s1, ev1) => (Exit n, s1, ev1)
    end.

Definition raise {A} (e : Exc) : M A := fun s => (Raise e, s, []).
Definition sys_exit {A} (n : Z) : M A := fun s => (Exit n, s, []).
Definition get : M Bolt := fun s => (Ok s, s, []).
Definition modify (f : Bolt -> Bolt) : M unit := fun s => (Ok tt, f s, []).
Definition event (e : Event) : M unit := fun s => (Ok tt, s, [e]).

(** [try: m except Exception as e: h e] *)
Definition try_except {A} (m : M A) (h : Exc -> M A) : M A :=
  fun s =>
    match m s with
    | (Raise e, s1, ev1) =>
        match h e s1 with (o, s2, ev2) => (o, s2, ev1 ++ ev2) end
    | r => r
    end.

(** [with l1, l2: m]: both locks are taken, in this order, and given
    back in the opposite order however [m] ends. *)
Definition with_locks {A} (l1 l2 : Lock) (m : M A) : M A :=
  fun s =>
    match m s with
    | (o, s1, ev) =>
        (o, s1, [Acquire l1; Acquire l2] ++ ev ++ [Release l2; Release l1])
    end.

Notation "x <- m ;; k" := (bind m (fun x => k))
  (at level 61, m at next level, right associativity).
Notation "m ;;; k" := (bind m (fun _ => k))
  (at level 61, right associativity).

Definition when (b : bool) (m : M unit) : M unit := if b then m else ret tt.

Fixpoint for_each {A} (l : list A) (body : A -> M unit) : M unit :=
  match l with
  | [] => ret tt
  | a :: l' => body a ;;; for_each l' body
  end.

(** ** Component: the transport *)

(** The answer to the [n]-th call of [read_task_ids]. *)
Variable task_ids_of : nat -> list Z.
(** What the [n]-th call of [read_tuple] gives. *)
Variable inbound : nat -> Result Tuple.

Definition send_message (m : Msg) : M unit := event (Send m).

Definition read_task_ids : M (list Z) :=
  s <- get ;;
  event ReadTaskIds ;;;
  modify (set_task_ids_read (S (task_ids_read s))) ;;;
  ret (task_ids_of (task_ids_read s)).

Definition read_tuple : M Tuple :=
  s <- get ;;
  event ReadTuple ;;;
  modify (set_tuples_read (S (tuples_read s))) ;;;
  match inbound (tuples_read s) with
  | Returned t => ret t
  | Raised e => raise e
  end.

Definition raise_exception (e : Exc) (tups : list Tuple) : M unit :=
  event (RaiseException e tups).

(** ** Bolt.emit, Bolt.emit_many, Bolt.ack, Bolt.fail *)

Definition is_sequence (v : PyVal) : bool :=
  match v with PyList _ => true | _ => false end.

Definition emit (tup : PyVal) (stream_ : option string)
    (anchors : option (list TupleOrId)) (direct_task : option Z)
    (need_task_ids : PyVal) : M (option (list Z)) :=
  if negb (is_sequence tup) then raise TypeError
  else
    s <- get ;;
    let anchors' :=
      match anchors with
      | None => if auto_anchor s then map IsTuple (_current_tups s) else []
      | Some a => a
      end in
    let msg := mkEmit tup (map id_of anchors') stream_ direct_task
                 (if is_False need_task_ids then Some need_task_ids else None) in
    with_locks ReaderLock WriterLock
      (send_message (MEmit msg) ;;;
       if is_True need_task_ids then
         match direct_task with
         | Some t => ret (Some [t])
         | None => ids <- read_task_ids ;; ret (Some ids)
         end
       else ret None).

Fixpoint emit_each (tuples : list PyVal) (stream_ : option string)
    (anchors : option (list TupleOrId)) (direct_task : option Z)
    (need_task_ids : PyVal) : M (list (option (list Z))) :=
  match tuples with
  | [] => ret []
  | tup :: rest =>
      r <- emit tup stream_ anchors direct_task need_task_ids ;;
      rs <- emit_each rest stream_ anchors direct_task need_task_ids ;;
      ret (r :: rs)
  end.

(** [need_task_ids] is [None] unless the caller gives it. *)
Definition emit_many (tuples : PyVal) (stream_ : option string)
    (anchors : option (list TupleOrId)) (direct_task : option Z)
    (need_task_ids : option PyVal) : M (list (option (list Z))) :=
  match tuples with
  | PyList l =>
      emit_each l stream_ anchors direct_task
        (match need_task_ids with Some v => v | None => PyNone end)
  | _ => raise TypeError
  end.

Definition ack (tup : TupleOrId) : M unit := send_message (MAck (id_of tup)).
Definition fail (tup : TupleOrId) : M unit := send_message (MFail (id_of tup)).

(** ** The user's hooks *)

Variable initialize : U -> U * Result unit.
Variable process : U -> Tuple -> U * Result unit.
Variable process_tick : U -> PyVal -> U * Result unit.
Variable group_key : U -> Tuple -> U * Result Key.
Variable process_batch : U -> Key -> list Tuple -> U * Result unit.

(** Calling a hook: the call is recorded, the hook's own state moves
    on, and what the hook raises propagates. *)
Definition call_hook {A} (ev : Event) (h : U -> U * Result A) : M A :=
  event ev ;;;
  s <- get ;;
  let (u', r) := h (user s) in
  modify (set_user u') ;;;
  match r with
  | Returned a => ret a
  | Raised e => raise e
  end.

(** The methods a subclass overrides. *)
Record Class : Type := mkClass {
  cls_process : Tuple -> M unit;
  cls_process_tick : PyVal -> M unit;
  cls_handle_run_exception : Exc -> M unit
}.

(** ** Bolt._run, Bolt._handle_run_exception, Bolt.run *)

Definition is_heartbeat (tup : Tuple) : bool :=
  (task tup =? -1) && String.eqb (stream tup) "__heartbeat".
Definition is_tick (tup : Tuple) : bool :=
  String.eqb (component tup) "__system" && String.eqb (stream tup) "__tick".

Definition _run (c : Class) : M unit :=
  tup <- read_tuple ;;
  modify (set_current_tups [tup]) ;;;
  (if is_heartbeat tup then send_message MSync
   else if is_tick tup then
     match values tup with
     | frequency :: _ => cls_process_tick c frequency
     | [] => raise IndexError
     end
   else
     cls_process c tup ;;;
     s <- get ;;
     when (auto_ack s) (ack (IsTuple tup))) ;;;
  modify (set_current_tups []).

Definition Bolt_handle_run_exception (exc : Exc) : M unit :=
  s <- get ;;
  match _current_tups s with
  | [tup] =>
      raise_exception exc [tup] ;;;
      when (auto_fail s) (fail (IsTuple tup))
  | _ => ret tt
  end ;;;
  sys_exit 1.

(** [while True: self._run()], unrolled [fuel] times: the outcome [Ok]
    says that the loop is still running after [fuel] messages. *)
Fixpoint run_loop (c : Class) (fuel : nat) : M unit :=
  match fuel with
  | O => ret tt
  | S n => _run c ;;; run_loop c n
  end.

Definition run (c : Class) (fuel : nat) : M unit :=
  event ReadHandshake ;;;
  try_except
    (call_hook CallInitialize initialize ;;; run_loop c fuel)
    (cls_handle_run_exception c).

(** A subclass of [Bolt] that overrides [process] and [process_tick]
    only.  ([Bolt] itself is the case where [process] raises
    [NotImplementedError] and [process_tick] returns.) *)
Definition BoltClass : Class :=
  mkClass (fun tup => call_hook (CallProcess tup) (fun u => process u tup))
          (fun freq => call_hook (CallProcessTick freq) (fun u => process_tick u freq))
          Bolt_handle_run_exception.

(** ** BatchingBolt *)

(** [d.get(key)] and [d[key] = v] on a dict kept in iteration order. *)
Fixpoint dict_get (key : Key) (d : list (Key * list Tuple)) : option (list Tuple) :=
  match d with
  | [] => None
  | (k, v) :: d' => if Key_eq_dec k key then Some v else dict_get key d'
  end.

Fixpoint dict_set (key : Key) (v : list Tuple) (d : list (Key * list Tuple))
    : list (Key * list Tuple) :=
  match d with
  | [] => [(key, v)]
  | (k, x) :: d' =>
      if Key_eq_dec k key then (k, v) :: d' else (k, x) :: dict_set key v d'
  end.

(** The buffer of group [key]; a [defaultdict(list)] gives [[]] for a
    key it does not hold. *)
Definition batch_of (key : Key) (d : list (Key * list Tuple)) : list Tuple :=
  match dict_get key d with Some v => v | None => [] end.

Definition BatchingBolt_emit (tup : PyVal) (stream_ : option string)
    (anchors : option (list TupleOrId)) (direct_task : option Z)
    : M (option (list Z)) :=
  emit tup stream_ anchors direct_task (PyBool false).

Definition BatchingBolt_emit_many (tups : PyVal) (stream_ : option string)
    (anchors : option (list TupleOrId)) (direct_task : option Z)
    : M (list (option (list Z))) :=
  emit_many tups stream_ anchors direct_task (Some (PyBool false)).

(** The body of the loop [for key, batch in iteritems(self._batches)]. *)
Definition flush_batch (kb : Key * list Tuple) : M unit :=
  let (key, batch) := kb in
  modify (set_current_tups batch) ;;;
  call_hook (CallProcessBatch key batch) (fun u => process_batch u key batch) ;;;
  s <- get ;;
  when (auto_ack s) (for_each batch (fun tup => ack (IsTuple tup))) ;;;
  modify (fun s => set_batches (dict_set key [] (_batches s)) s).

Definition BatchingBolt_process_tick (freq : PyVal) : M unit :=
  modify (fun s => set_tick_counter (_tick_counter s + 1) s) ;;;
  s <- get ;;
  if ticks_between_batches s <? _tick_counter s then
    match _batches s with
    | [] => ret tt                      (* no tuples to save *)
    | _ :: _ =>
        for_each (_batches s) flush_batch ;;;
        modify (set_batches []) ;;;
        modify (set_tick_counter 0)
    end
  else ret tt.

Definition BatchingBolt_process (tup : Tuple) : M unit :=
  key <- call_hook (CallGroupKey tup) (fun u => group_key u tup) ;;
  modify (fun s =>
    set_batches (dict_set key (batch_of key (_batches s) ++ [tup]) (_batches s)) s).

Definition BatchingBolt_handle_run_exception (exc : Exc) : M unit :=
  s <- get ;;
  raise_exception exc (_current_tups s) ;;;
  when (auto_fail s)
    (for_each (_batches s) (fun kb =>
       for_each (snd kb) (fun tup => fail (IsTuple tup)))) ;;;
  sys_exit 1.

Definition BatchingBoltClass : Class :=
  mkClass BatchingBolt_process BatchingBolt_process_tick
          BatchingBolt_handle_run_exception.

(** [BatchingBolt.__init__] with the class attributes as given. *)
Definition new_bolt (anchor ack_ fail_ : bool) (ticks : Z) (u : U) : Bolt :=
  mkBolt anchor ack_ fail_ ticks [] [] 0 0 0 u.

(** ** Observing a call *)

Definition outcome_of {A} (r : Outcome A * Bolt * list Event) : Outcome A := fst (fst r).
Definition bolt_of {A} (r : Outcome A * Bolt * list Event) : Bolt := snd (fst r).
Definition events_of {A} (r : Outcome A * Bolt * list Event) : list Event := snd r.

(** The messages written by [send_message], in order. *)
Fixpoint sent (ev : list Event) : list Msg :=
  match ev with
  | [] => []
  | Send m :: ev' => m :: sent ev'
  | _ :: ev' => sent ev'
  end.

(** The ids for which a command [fail] was written. *)
Fixpoint failed (ms : list Msg) : list string :=
  match ms with
  | [] => []
  | MFail i :: ms' => i :: failed ms'
  | _ :: ms' => failed ms'
  end.

(** The calls of [process_batch], in order. *)
Fixpoint batch_calls (ev : list Event) : list (Key * list Tuple) :=
  match ev with
  | [] => []
  | CallProcessBatch k b :: ev' => (k, b) :: batch_calls ev'
  | _ :: ev' => batch_calls ev'
  end.

(** ** The vocabulary of the statements *)

(** [writes P m]: every event of every call of [m] satisfies [P]. *)
Definition writes {A} (P : Event -> Prop) (m : M A) : Prop :=
  forall s, Forall P (events_of (m s)).

(** No command [fail] is written. *)
Definition not_fail (e : Event) : Prop :=
  match e with Send (MFail _) => False | _ => True end.

Definition ack_events (batch : list Tuple) : list Event :=
  map (fun t => Send (MAck (id t))) batch.
Definition fail_events (batch : list Tuple) : list Event :=
  map (fun t => Send (MFail (id t))) batch.

(** The events of one turn of the loop when [process_batch] returns. *)
Definition flush_events (ack_ : bool) (kb : Key * list Tuple) : list Event :=
  CallProcessBatch (fst kb) (snd kb) :: (if ack_ then ack_events (snd kb) else []).

Definition clear_group (d : list (Key * list Tuple)) (kb : Key * list Tuple) :=
  dict_set (fst kb) [] d.

(** The fields once the groups [pre] went through the loop. *)
Definition after_flush (pre : list (Key * list Tuple)) (u : U) (s : Bolt) : Bolt :=
  mkBolt (auto_anchor s) (auto_ack s) (auto_fail s) (ticks_between_batches s)
         (last (map snd pre) (_current_tups s))
         (fold_left clear_group pre (_batches s))
         (_tick_counter s) (tuples_read s) (task_ids_read s) u.

(** [process_batch] returns on each group of [pre], taken in order. *)
Fixpoint batches_succeed (u : U) (pre : list (Key * list Tuple)) : option U :=
  match pre with
  | [] => Some u
  | (k, b) :: pre' =>
      match process_batch u k b with
      | (u', Returned _) => batches_succeed u' pre'
      | (_, Raised _) => None
      end
  end.

(** The fields once [read_tuple] has returned [tup] and
    [_current_tups] is set. *)
Definition received (tup : Tuple) (s : Bolt) : Bolt :=
  set_current_tups [tup] (set_tuples_read (S (tuples_read s)) s).

Definition ticked (s : Bolt) : Bolt := set_tick_counter (_tick_counter s + 1) s.

(** Keys are distinct, no group is empty and the counter is not negative. *)
Definition batches_inv (s : Bolt) : Prop :=
  NoDup (map fst (_batches s)) /\
  Forall (fun kb => snd kb <> []) (_batches s) /\
  0 <= _tick_counter s.

(** The payloads of the [emit] messages among [ms], in order. *)
Fixpoint emit_payloads (ms : list Msg) : list PyVal :=
  match ms with
  | [] => []
  | MEmit m :: ms' => msg_tuple m :: emit_payloads ms'
  | _ :: ms' => emit_payloads ms'
  end.

(** An event of the transport: a message written or an answer read. *)
Definition is_io (e : Event) : Prop :=
  match e with Send _ | ReadTaskIds => True | _ => False end.

(** [Bolt.process] as the base class defines it:
    [raise NotImplementedError()]; and [Bolt.process_tick]: [pass]. *)
Definition Bolt_process (u : U) (tup : Tuple) : U * Result unit :=
  (u, Raised NotImplementedError).
Definition Bolt_process_tick (u : U) (freq : PyVal) : U * Result unit :=
  (u, Returned tt).

(** * Properties of emit *)

Ltac run_emit :=
  unfold emit, emit_many, BatchingBolt_emit, with_locks, read_task_ids,
    send_message, bind, get, modify, event, ret, raise,
    outcome_of, bolt_of, events_of; cbn.

Lemma emit_not_sequence tup stream_ anchors direct_task need s :
  is_sequence tup = false ->
  emit tup stream_ anchors direct_task need s = (Raise TypeError, s, []).
Proof. intros H. unfold emit. rewrite H. reflexivity. Qed.

(** The trace of a call of [emit] on a list or tuple: both locks are
    taken, one message is written, the answer is read when
    [need_task_ids is True] and no task is given, the locks are given
    back. *)
Lemma emit_events tup stream_ anchors direct_task need s :
  is_sequence tup = true ->
  exists m,
    events_of (emit tup stream_ anchors direct_task need s) =
      [Acquire ReaderLock; Acquire WriterLock; Send (MEmit m)] ++
      (if is_True need
       then match direct_task with Some _ => [] | None => [ReadTaskIds] end
       else []) ++
      [Release WriterLock; Release ReaderLock]
    /\ msg_tuple m = tup
    /\ msg_anchors m =
         match anchors with
         | None => if auto_anchor s then map id (_current_tups s) else []
         | Some a => map id_of a
         end
    /\ msg_stream m = stream_
    /\ msg_task m = direct_task
    /\ msg_need_task_ids m = if is_False need then Some (PyBool false) else None.
Proof.
  intros H. unfold emit. rewrite H. cbn [negb].
  eexists. split.
  - run_emit. destruct (is_True need); [destruct direct_task|]; reflexivity.
  - cbn. repeat split.
    + destruct anchors as [a|]; [reflexivity|].
      destruct (auto_anchor s); [|reflexivity].
      rewrite map_map. reflexivity.
    + destruct need as [| [|] | | |]; reflexivity.
Qed.

(** C5: a call of [emit] on a list or tuple writes exactly one message;
    with [direct_task=T] and [need_task_ids=True] it returns [[T]]
    and [read_task_ids] is not called; with [need_task_ids=False],
    whatever [direct_task] is, it returns [None] and [read_task_ids]
    is not called. *)
Theorem emit_returns_C5 tup stream_ anchors direct_task need s :
  is_sequence tup = true ->
  let r := emit tup stream_ anchors direct_task need s in
  (forall T, direct_task = Some T -> need = PyBool true ->
     outcome_of r = Ok (Some [T]) /\ ~ In ReadTaskIds (events_of r)
     /\ task_ids_read (bolt_of r) = task_ids_read s) /\
  (need = PyBool false ->
     outcome_of r = Ok None /\ ~ In ReadTaskIds (events_of r)
     /\ task_ids_read (bolt_of r) = task_ids_read s) /\
  List.length (sent (events_of r)) = 1%nat.
Proof.
  intros H r. subst r. unfold emit. rewrite H. cbn [negb].
  split; [|split].
  - intros T -> ->. run_emit. repeat split; try reflexivity.
    intros [X|[X|[X|[X|[X|[]]]]]]; discriminate X.
  - intros ->. run_emit. repeat split; try reflexivity.
    intros [X|[X|[X|[X|[X|[]]]]]]; discriminate X.
  - run_emit. destruct (is_True need); [destruct direct_task|]; reflexivity.
Qed.

(** C6: the message written by [emit] carries, when [anchors] is not
    given, the ids of the tuples in [_current_tups] if [auto_anchor]
    is set and no anchor otherwise; when [anchors] is given, every
    [Tuple] in it is replaced by its [id] and every raw id is kept. *)
Theorem emit_anchors_C6 tup stream_ anchors direct_task need s :
  is_sequence tup = true ->
  exists m,
    sent (events_of (emit tup stream_ anchors direct_task need s)) = [MEmit m] /\
    msg_anchors m =
      match anchors with
      | None => if auto_anchor s then map id (_current_tups s) else []
      | Some a => map (fun x => match x with IsTuple t => id t | IsId i => i end) a
      end.
Proof.
  intros H.
  destruct (emit_events tup stream_ anchors direct_task need s H)
    as (m & Hev & _ & Hanch & _).
  exists m. split.
  - rewrite Hev. cbn.
    destruct (is_True need); [destruct direct_task|]; reflexivity.
  - rewrite Hanch. destruct anchors; reflexivity.
Qed.

(** A call of [emit] whose [need_task_ids] is not [True] leaves the
    bolt as it was and returns [None]. *)
Lemma emit_not_True tup stream_ anchors direct_task need s :
  is_sequence tup = true ->
  is_True need = false ->
  outcome_of (emit tup stream_ anchors direct_task need s) = Ok None /\
  bolt_of (emit tup stream_ anchors direct_task need s) = s.
Proof.
  intros H Hn. unfold emit. rewrite H. cbn [negb]. run_emit.
  rewrite Hn. cbn. split; reflexivity.
Qed.

Lemma emit_each_not_True tuples stream_ anchors direct_task need :
  Forall (fun t => is_sequence t = true) tuples ->
  is_True need = false ->
  forall s,
    outcome_of (emit_each tuples stream_ anchors direct_task need s)
      = Ok (map (fun _ => None) tuples) /\
    bolt_of (emit_each tuples stream_ anchors direct_task need s) = s.
Proof.
  intros Hall Hn. induction Hall as [|tup rest Htup _ IH]; intros s.
  - split; reflexivity.
  - destruct (emit_not_True tup stream_ anchors direct_task need s Htup Hn) as [Ho Hs].
    destruct (IH s) as [IHo IHs].
    cbn [emit_each map]. unfold bind, outcome_of, bolt_of in *.
    destruct (emit tup stream_ anchors direct_task need s) as [[o s1] ev1].
    cbn in Ho, Hs. subst o s1.
    destruct (emit_each rest stream_ anchors direct_task need s) as [[o2 s2] ev2].
    cbn in IHo, IHs. subst o2 s2. cbn. split; reflexivity.
Qed.

(** C8: when [need_task_ids] is neither [True] nor [False], the
    message of [emit] has no key [need_task_ids], [read_task_ids] is
    not called and [emit] returns [None]; so [emit_many] without
    [need_task_ids], which hands [None] to [emit], returns one [None]
    for each payload. *)
Theorem emit_need_task_ids_not_bool_C8
    tup tuples stream_ anchors direct_task need s :
  is_sequence tup = true ->
  Forall (fun t => is_sequence t = true) tuples ->
  need <> PyBool true ->
  need <> PyBool false ->
  let r := emit tup stream_ anchors direct_task need s in
  (exists m, sent (events_of r) = [MEmit m] /\ msg_need_task_ids m = None) /\
  ~ In ReadTaskIds (events_of r) /\
  outcome_of r = Ok None /\
  outcome_of (emit_many (PyList tuples) stream_ anchors direct_task None s)
    = Ok (map (fun _ => None) tuples).
Proof.
  intros H Hall HnT HnF r. subst r.
  assert (HT : is_True need = false)
    by (destruct need as [| [|] | | |]; try reflexivity; congruence).
  assert (HF : is_False need = false)
    by (destruct need as [| [|] | | |]; try reflexivity; congruence).
  destruct (emit_events tup stream_ anchors direct_task need s H)
    as (m & Hev & _ & _ & _ & _ & Hneed).
  rewrite Hev, HT. rewrite HF in Hneed. cbn.
  repeat split.
  - exists m. split; [reflexivity | exact Hneed].
  - intros [X|[X|[X|[X|[X|[]]]]]]; discriminate X.
  - apply emit_not_True; assumption.
  - apply (emit_each_not_True tuples stream_ anchors direct_task PyNone Hall).
    reflexivity.
Qed.

(** * The run loop *)

Lemma bind_Ok {A B} (m : M A) (k : A -> M B) s a s1 ev1 :
  m s = (Ok a, s1, ev1) ->
  bind m k s = (outcome_of (k a s1), bolt_of (k a s1), ev1 ++ events_of (k a s1)).
Proof.
  intros H. unfold bind, outcome_of, bolt_of, events_of. rewrite H.
  destruct (k a s1) as [[o s2] ev2]. reflexivity.
Qed.

Lemma bind_Raise {A B} (m : M A) (k : A -> M B) s e s1 ev1 :
  m s = (Raise e, s1, ev1) -> bind m k s = (Raise e, s1, ev1).
Proof. intros H. unfold bind. rewrite H. reflexivity. Qed.

Lemma bind_Ok_inv {A B} (m : M A) (k : A -> M B) s b s2 ev :
  bind m k s = (Ok b, s2, ev) ->
  exists a s1 ev1 ev2,
    m s = (Ok a, s1, ev1) /\ k a s1 = (Ok b, s2, ev2) /\ ev = ev1 ++ ev2.
Proof.
  unfold bind. destruct (m s) as [[[a|e|n] s1] ev1]; try discriminate.
  destruct (k a s1) as [[o s2'] ev2] eqn:E. intros H. inversion H; subst.
  exists a, s1, ev1, ev2. auto.
Qed.

Lemma bind_Raise_inv {A B} (m : M A) (k : A -> M B) s e s2 ev :
  bind m k s = (Raise e, s2, ev) ->
  m s = (Raise e, s2, ev) \/
  exists a s1 ev1 ev2,
    m s = (Ok a, s1, ev1) /\ k a s1 = (Raise e, s2, ev2) /\ ev = ev1 ++ ev2.
Proof.
  unfold bind. destruct (m s) as [[[a|e'|n] s1] ev1]; try discriminate.
  - destruct (k a s1) as [[o s2'] ev2] eqn:E. intros H. inversion H; subst.
    right. exists a, s1, ev1, ev2. auto.
  - intros H. inversion H; subst. left. reflexivity.
Qed.

(** [k] messages are dispatched and the next one raises: the loop
    raises there, whatever fuel is left. *)
Lemma run_loop_raises c k n : forall s sk evk s' ev' e,
  run_loop c k s = (Ok tt, sk, evk) ->
  _run c sk = (Raise e, s', ev') ->
  run_loop c (k + S n) s = (Raise e, s', evk ++ ev').
Proof.
  induction k as [|k IH]; intros s sk evk s' ev' e Hk Hr.
  - cbn in Hk. inversion Hk; subst. cbn [Nat.add run_loop app].
    apply bind_Raise. exact Hr.
  - cbn [run_loop] in Hk. apply bind_Ok_inv in Hk.
    destruct Hk as ([] & s1 & ev1 & ev2 & H1 & H2 & ->).
    cbn [Nat.add run_loop]. rewrite (bind_Ok _ _ _ _ _ _ H1).
    rewrite (IH _ _ _ _ _ _ H2 Hr). cbn.
    rewrite app_assoc. reflexivity.
Qed.

(** The only [except] clause is the one of [run]: an exception of the
    [k+1]-th dispatch is handed to [_handle_run_exception], with the
    fields as the dispatch left them. *)
Lemma run_raises c k n s0 s1 ev1 sk evk s' ev' e :
  call_hook CallInitialize initialize s0 = (Ok tt, s1, ev1) ->
  run_loop c k s1 = (Ok tt, sk, evk) ->
  _run c sk = (Raise e, s', ev') ->
  run c (k + S n) s0 =
    (outcome_of (cls_handle_run_exception c e s'),
     bolt_of (cls_handle_run_exception c e s'),
     ReadHandshake :: ev1 ++ evk ++ ev' ++
       events_of (cls_handle_run_exception c e s')).
Proof.
  intros Hi Hk Hr. unfold run.
  rewrite (bind_Ok (event ReadHandshake) _ s0 tt s0 [ReadHandshake])
    by reflexivity.
  unfold try_except.
  rewrite (bind_Ok _ _ _ _ _ _ Hi), (run_loop_raises c k n _ _ _ _ _ _ Hk Hr).
  unfold outcome_of, bolt_of, events_of. cbn.
  destruct (cls_handle_run_exception c e s') as [[o s2] ev2]. cbn.
  rewrite <- !app_assoc. reflexivity.
Qed.

Lemma Bolt_handle_run_exception_eq e s :
  Bolt_handle_run_exception e s =
    (Exit 1, s,
     match _current_tups s with
     | [tup] =>
         RaiseException e [tup] ::
         (if auto_fail s then [Send (MFail (id tup))] else [])
     | _ => []
     end).
Proof.
  unfold Bolt_handle_run_exception, bind, get, raise_exception, when, fail,
    send_message, event, ret, sys_exit.
  destruct (_current_tups s) as [|tup [|]]; cbn; try reflexivity.
  destruct (auto_fail s); reflexivity.
Qed.

(** C4: in a bolt that keeps [Bolt._handle_run_exception], an
    exception that leaves the dispatch of a message is handled by the
    [except] clause of [run]: when [_current_tups] holds exactly one
    tuple, [raise_exception] is called with it and, if [auto_fail] is
    set, [fail] is sent for it; nothing is reported or failed
    otherwise; in every case the process ends by [sys.exit(1)]. *)
Theorem run_exception_C4 k n s0 s1 ev1 sk evk s' ev' e :
  call_hook CallInitialize initialize s0 = (Ok tt, s1, ev1) ->
  run_loop BoltClass k s1 = (Ok tt, sk, evk) ->
  _run BoltClass sk = (Raise e, s', ev') ->
  let r := run BoltClass (k + S n) s0 in
  outcome_of r = Exit 1 /\
  bolt_of r = s' /\
  events_of r =
    ReadHandshake :: ev1 ++ evk ++ ev' ++
      match _current_tups s' with
      | [tup] =>
          RaiseException e [tup] ::
          (if auto_fail s' then [Send (MFail (id tup))] else [])
      | _ => []
      end.
Proof.
  intros Hi Hk Hr r. subst r.
  rewrite (run_raises BoltClass k n _ _ _ _ _ _ _ _ Hi Hk Hr).
  cbn [cls_handle_run_exception BoltClass].
  rewrite Bolt_handle_run_exception_eq.
  repeat split.
Qed.

(** * The batching layer *)

(** ** What a method may write *)

Lemma writes_bind {A B} P (m : M A) (k : A -> M B) :
  writes P m -> (forall a, writes P (k a)) -> writes P (bind m k).
Proof.
  intros Hm Hk s. specialize (Hm s). unfold bind, events_of in *.
  destruct (m s) as [[[a|e|n] s1] ev1]; cbn in *; try assumption.
  specialize (Hk a s1). unfold events_of in Hk.
  destruct (k a s1) as [[o s2] ev2]. cbn in *.
  apply Forall_app. split; assumption.
Qed.

Lemma writes_ret {A} P (a : A) : writes P (ret a).
Proof. intros s. constructor. Qed.
Lemma writes_raise {A} P e : writes P (@raise A e).
Proof. intros s. constructor. Qed.
Lemma writes_get P : writes P get.
Proof. intros s. constructor. Qed.
Lemma writes_modify P f : writes P (modify f).
Proof. intros s. constructor. Qed.
Lemma writes_event (P : Event -> Prop) e : P e -> writes P (event e).
Proof. intros H s. repeat constructor. exact H. Qed.

Lemma writes_when P b m : writes P m -> writes P (when b m).
Proof. destruct b; [auto | intros _; apply writes_ret]. Qed.

Lemma writes_for_each {A} P (l : list A) body :
  (forall a, writes P (body a)) -> writes P (for_each l body).
Proof.
  intros H. induction l as [|a l IH]; cbn [for_each].
  - apply writes_ret.
  - apply writes_bind; auto.
Qed.

Lemma writes_call_hook {A} (P : Event -> Prop) ev (h : U -> U * Result A) :
  P ev -> writes P (call_hook ev h).
Proof.
  intros H. unfold call_hook.
  apply writes_bind; [apply writes_event; exact H | intros _].
  apply writes_bind; [apply writes_get | intros s].
  destruct (h (user s)) as [u' [a|e]];
    (apply writes_bind; [apply writes_modify | intros _]).
  - apply writes_ret.
  - apply writes_raise.
Qed.

Create HintDb writes.
#[local] Hint Resolve writes_ret writes_raise writes_get writes_modify
  writes_when : writes.

Lemma not_fail_failed ev : Forall not_fail ev -> failed (sent ev) = [].
Proof.
  induction 1 as [|e ev He _ IH]; [reflexivity|].
  destruct e as [| |m| | | | | | | | |]; cbn; try exact IH.
  destruct m; cbn; try exact IH. destruct He.
Qed.

Lemma BatchingBolt_process_tick_not_fail freq :
  writes not_fail (BatchingBolt_process_tick freq).
Proof.
  unfold BatchingBolt_process_tick.
  apply writes_bind; [auto with writes | intros _].
  apply writes_bind; [auto with writes | intros s].
  destruct (ticks_between_batches s <? _tick_counter s); [|auto with writes].
  destruct (_batches s) as [|kb d]; [auto with writes|].
  apply writes_bind; [|intros _; apply writes_bind; auto with writes].
  apply writes_for_each. intros [key batch]. unfold flush_batch.
  apply writes_bind; [auto with writes | intros _].
  apply writes_bind; [apply writes_call_hook; exact I | intros _].
  apply writes_bind; [auto with writes | intros s'].
  apply writes_bind; [|auto with writes].
  apply writes_when, writes_for_each. intros tup.
  apply writes_event. exact I.
Qed.

Lemma BatchingBolt_process_not_fail tup :
  writes not_fail (BatchingBolt_process tup).
Proof.
  unfold BatchingBolt_process.
  apply writes_bind; [apply writes_call_hook; exact I | auto with writes].
Qed.

Lemma _run_not_fail c :
  (forall tup, writes not_fail (cls_process c tup)) ->
  (forall freq, writes not_fail (cls_process_tick c freq)) ->
  writes not_fail (_run c).
Proof.
  intros Hp Ht. unfold _run.
  apply writes_bind; [|intros tup].
  - unfold read_tuple.
    apply writes_bind; [auto with writes | intros s].
    apply writes_bind; [apply writes_event; exact I | intros _].
    apply writes_bind; [auto with writes | intros _].
    destruct (inbound (tuples_read s)); auto with writes.
  - apply writes_bind; [auto with writes | intros _].
    apply writes_bind; [|auto with writes].
    destruct (is_heartbeat tup); [apply writes_event; exact I|].
    destruct (is_tick tup).
    + destruct (values tup); auto with writes.
    + apply writes_bind; [apply Hp | intros _].
      apply writes_bind; [auto with writes | intros s].
      apply writes_when, writes_event. exact I.
Qed.

Lemma run_loop_not_fail c fuel :
  (forall tup, writes not_fail (cls_process c tup)) ->
  (forall freq, writes not_fail (cls_process_tick c freq)) ->
  writes not_fail (run_loop c fuel).
Proof.
  intros Hp Ht. induction fuel as [|n IH]; cbn [run_loop].
  - apply writes_ret.
  - apply writes_bind; [apply _run_not_fail; assumption | intros _; exact IH].
Qed.

(** Until an exception reaches [_handle_run_exception], a batching
    bolt writes no command [fail]. *)
Lemma BatchingBolt_run_loop_failed fuel s :
  failed (sent (events_of (run_loop BatchingBoltClass fuel s))) = [].
Proof.
  apply not_fail_failed, run_loop_not_fail; cbn.
  - apply BatchingBolt_process_not_fail.
  - apply BatchingBolt_process_tick_not_fail.
Qed.

(** ** The flush pass *)

Lemma for_each_ack batch s :
  for_each batch (fun tup => ack (IsTuple tup)) s = (Ok tt, s, ack_events batch).
Proof.
  induction batch as [|t batch IH]; [reflexivity|].
  cbn [for_each]. rewrite (bind_Ok _ _ s tt s [Send (MAck (id t))]) by reflexivity.
  rewrite IH. reflexivity.
Qed.

Lemma for_each_fail batch s :
  for_each batch (fun tup => fail (IsTuple tup)) s = (Ok tt, s, fail_events batch).
Proof.
  induction batch as [|t batch IH]; [reflexivity|].
  cbn [for_each]. rewrite (bind_Ok _ _ s tt s [Send (MFail (id t))]) by reflexivity.
  rewrite IH. reflexivity.
Qed.

Lemma for_each_fail_all d s :
  for_each d (fun kb : Key * list Tuple =>
    for_each (snd kb) (fun tup => fail (IsTuple tup))) s
  = (Ok tt, s, fail_events (List.concat (map snd d))).
Proof.
  induction d as [|kb d IH]; [reflexivity|].
  cbn [for_each]. rewrite (bind_Ok _ _ _ _ _ _ (for_each_fail (snd kb) s)).
  rewrite IH. cbn. unfold fail_events. rewrite map_app. reflexivity.
Qed.

Lemma last_cons {A} (a d : A) l : last (a :: l) d = last l a.
Proof.
  revert a d. induction l as [|b l IH]; intros a d; [reflexivity|].
  change (last (a :: b :: l) d) with (last (b :: l) d).
  rewrite (IH b d), (IH b a). reflexivity.
Qed.

Lemma flush_batch_returns key batch s u' r :
  process_batch (user s) key batch = (u', Returned r) ->
  flush_batch (key, batch) s =
    (Ok tt, after_flush [(key, batch)] u' s, flush_events (auto_ack s) (key, batch)).
Proof.
  intros H. unfold flush_batch, call_hook, bind, modify, get, event, ret. cbn.
  rewrite H. cbn. unfold when.
  destruct (auto_ack s); cbn; [rewrite for_each_ack; cbn; rewrite app_nil_r|];
    reflexivity.
Qed.

Lemma flush_batch_raises key batch s u' e :
  process_batch (user s) key batch = (u', Raised e) ->
  flush_batch (key, batch) s =
    (Raise e, set_user u' (set_current_tups batch s), [CallProcessBatch key batch]).
Proof.
  intros H. unfold flush_batch, call_hook, bind, modify, get, event, raise. cbn.
  rewrite H. reflexivity.
Qed.

Lemma for_each_flush_returns pre : forall s u1,
  batches_succeed (user s) pre = Some u1 ->
  for_each pre flush_batch s =
    (Ok tt, after_flush pre u1 s, flat_map (flush_events (auto_ack s)) pre).
Proof.
  induction pre as [|[k b] pre IH]; intros s u1 H.
  - cbn in H. inversion H; subst. destruct s; reflexivity.
  - cbn [batches_succeed] in H.
    destruct (process_batch (user s) k b) as [u' [r|e]] eqn:E; [|discriminate].
    cbn [for_each]. rewrite (bind_Ok _ _ _ _ _ _ (flush_batch_returns k b s u' r E)).
    rewrite (IH _ u1) by exact H.
    unfold outcome_of, bolt_of, events_of. cbn [fst snd flat_map].
    f_equal. f_equal. unfold after_flush. cbn.
    rewrite <- (last_cons b (_current_tups s) (map snd pre)). reflexivity.
Qed.

Lemma bind_assoc {A B C} (m : M A) (k : A -> M B) (h : B -> M C) s :
  bind (bind m k) h s = bind m (fun a => bind (k a) h) s.
Proof.
  unfold bind. destruct (m s) as [[[a|e|n] s1] ev1]; try reflexivity.
  destruct (k a s1) as [[[b|e|n] s2] ev2]; try reflexivity.
  destruct (h b s2) as [[o s3] ev3]. rewrite app_assoc. reflexivity.
Qed.

Lemma bind_ext {A B} (m : M A) (k k' : A -> M B) s :
  (forall a s1, k a s1 = k' a s1) -> bind m k s = bind m k' s.
Proof.
  intros H. unfold bind. destruct (m s) as [[[a|e|n] s1] ev1]; try reflexivity.
  rewrite H. reflexivity.
Qed.

Lemma for_each_app {A} (l1 l2 : list A) body s :
  for_each (l1 ++ l2) body s = (for_each l1 body ;;; for_each l2 body) s.
Proof.
  revert s. induction l1 as [|a l1 IH]; intros s; cbn [app for_each].
  - unfold bind. cbn. destruct (for_each l2 body s) as [[o s2] ev2]. reflexivity.
  - rewrite bind_assoc. apply bind_ext. intros _ s1. apply IH.
Qed.

(** The loop when [process_batch] returns on the groups [pre] and
    raises on the next one. *)
Lemma for_each_flush_raises pre g items post s u1 u2 e :
  batches_succeed (user s) pre = Some u1 ->
  process_batch u1 g items = (u2, Raised e) ->
  for_each (pre ++ (g, items) :: post) flush_batch s =
    (Raise e,
     set_user u2 (set_current_tups items (after_flush pre u1 s)),
     flat_map (flush_events (auto_ack s)) pre ++ [CallProcessBatch g items]).
Proof.
  intros Hpre Hg. rewrite for_each_app.
  rewrite (bind_Ok _ _ _ _ _ _ (for_each_flush_returns pre s u1 Hpre)).
  cbn [for_each].
  rewrite (bind_Raise _ _ _ _ _ _
             (flush_batch_raises g items (after_flush pre u1 s) u2 e Hg)).
  reflexivity.
Qed.

(** ** The dict of batches *)

Lemma dict_set_first key v done x rest :
  ~ In key (map fst done) ->
  dict_set key v (done ++ (key, x) :: rest) = done ++ (key, v) :: rest.
Proof.
  induction done as [|[k y] done IH]; intros Hn; cbn.
  - destruct (Key_eq_dec key key); [reflexivity | congruence].
  - destruct (Key_eq_dec k key) as [->|_].
    + exfalso. apply Hn. left. reflexivity.
    + rewrite IH; [reflexivity|]. intros Hin. apply Hn. right. exact Hin.
Qed.

(** Clearing the groups of [pre], one after the other, leaves the
    dict with the same keys in the same order, and [[]] for each
    group of [pre]. *)
Lemma fold_clear_group pre : forall done rest,
  NoDup (map fst (done ++ pre)) ->
  fold_left clear_group pre (done ++ pre ++ rest) =
    done ++ map (fun kb => (fst kb, [])) pre ++ rest.
Proof.
  induction pre as [|[k b] pre IH]; intros done rest Hnd; [reflexivity|].
  cbn [fold_left map app fst]. unfold clear_group at 2. cbn [fst].
  rewrite dict_set_first.
  - change (done ++ (k, []) :: pre ++ rest)
      with (done ++ [(k, @nil Tuple)] ++ pre ++ rest).
    rewrite app_assoc, IH.
    + rewrite <- app_assoc. reflexivity.
    + rewrite <- app_assoc. rewrite map_app in *. exact Hnd.
  - rewrite map_app in Hnd. cbn in Hnd. apply NoDup_remove_2 in Hnd.
    intros Hin. apply Hnd. apply in_or_app. left. exact Hin.
Qed.

Lemma NoDup_app_disjoint {A} (l1 l2 : list A) a :
  NoDup (l1 ++ l2) -> In a l1 -> ~ In a l2.
Proof.
  induction l1 as [|b l1 IH]; intros Hnd Hin; [destruct Hin|].
  cbn in Hnd. inversion Hnd as [|? ? Hb Hnd']; subst.
  destruct Hin as [->|Hin].
  - intros H2. apply Hb. apply in_or_app. right. exact H2.
  - apply IH; assumption.
Qed.

(** ** One dispatch *)

Lemma _run_read_raises c s e :
  inbound (tuples_read s) = Raised e ->
  _run c s = (Raise e, set_tuples_read (S (tuples_read s)) s, [ReadTuple]).
Proof.
  intros H. unfold _run, read_tuple, bind, get, event, modify, raise. cbn.
  rewrite H. reflexivity.
Qed.

Lemma _run_heartbeat c s tup :
  inbound (tuples_read s) = Returned tup ->
  is_heartbeat tup = true ->
  _run c s = (Ok tt, set_current_tups [] (received tup s), [ReadTuple; Send MSync]).
Proof.
  intros H Hh.
  unfold _run, read_tuple, bind, get, event, modify, send_message, ret. cbn.
  rewrite H. cbn. rewrite Hh. reflexivity.
Qed.

Lemma _run_tick c s tup freq rest :
  inbound (tuples_read s) = Returned tup ->
  is_heartbeat tup = false ->
  is_tick tup = true ->
  values tup = freq :: rest ->
  _run c s =
    let r := (cls_process_tick c freq ;;; modify (set_current_tups []))
               (received tup s) in
    (outcome_of r, bolt_of r, ReadTuple :: events_of r).
Proof.
  intros H Hh Ht Hv.
  unfold _run, read_tuple, bind, get, event, modify, ret,
    outcome_of, bolt_of, events_of. cbn.
  rewrite H. cbn. rewrite Hh, Ht, Hv. fold (received tup s).
  destruct (cls_process_tick c freq (received tup s)) as [[[[]|e|n] s1] ev1];
    reflexivity.
Qed.

Lemma _run_data c s tup :
  inbound (tuples_read s) = Returned tup ->
  is_heartbeat tup = false ->
  is_tick tup = false ->
  _run c s =
    let r := ((cls_process c tup ;;;
               s' <- get ;; when (auto_ack s') (ack (IsTuple tup))) ;;;
              modify (set_current_tups [])) (received tup s) in
    (outcome_of r, bolt_of r, ReadTuple :: events_of r).
Proof.
  intros H Hh Ht.
  unfold _run, read_tuple. unfold bind at 1 2 3 4.
  unfold get at 1, event at 1, modify at 1 2, ret at 1,
    outcome_of, bolt_of, events_of. cbn.
  rewrite H. cbn. rewrite Hh, Ht. fold (received tup s).
  match goal with
  | |- context [bind ?m ?k (received tup s)] =>
      destruct (bind m k (received tup s)) as [[o s1] ev1]
  end.
  reflexivity.
Qed.

(** ** BatchingBolt.process_tick, case by case *)

Lemma process_tick_waits freq s :
  _tick_counter s + 1 <= ticks_between_batches s ->
  BatchingBolt_process_tick freq s = (Ok tt, ticked s, []).
Proof.
  intros H. unfold BatchingBolt_process_tick, bind, modify, get, ret. cbn.
  destruct (Z.ltb_spec (ticks_between_batches s) (_tick_counter s + 1)); [lia|].
  reflexivity.
Qed.

Lemma process_tick_nothing_to_save freq s :
  _batches s = [] ->
  BatchingBolt_process_tick freq s = (Ok tt, ticked s, []).
Proof.
  intros H. unfold BatchingBolt_process_tick, bind, modify, get, ret. cbn.
  rewrite H. destruct (_ <? _); reflexivity.
Qed.

Lemma process_tick_flushes freq s u1 :
  ticks_between_batches s < _tick_counter s + 1 ->
  _batches s <> [] ->
  batches_succeed (user s) (_batches s) = Some u1 ->
  BatchingBolt_process_tick freq s =
    (Ok tt,
     set_tick_counter 0 (set_batches [] (after_flush (_batches s) u1 (ticked s))),
     flat_map (flush_events (auto_ack s)) (_batches s)).
Proof.
  intros Hlt Hne Hok.
  unfold BatchingBolt_process_tick.
  rewrite (bind_Ok _ _ s tt (ticked s) []) by reflexivity.
  rewrite (bind_Ok _ _ (ticked s) (ticked s) (ticked s) []) by reflexivity.
  change (ticks_between_batches (ticked s)) with (ticks_between_batches s).
  change (_tick_counter (ticked s)) with (_tick_counter s + 1).
  change (_batches (ticked s)) with (_batches s).
  destruct (Z.ltb_spec (ticks_between_batches s) (_tick_counter s + 1)); [|lia].
  destruct (_batches s) as [|kb d] eqn:E; [congruence|].
  rewrite (bind_Ok _ _ _ _ _ _
             (for_each_flush_returns (kb :: d) (ticked s) u1 Hok)).
  unfold bind, modify, outcome_of, bolt_of, events_of. cbn [fst snd].
  rewrite !app_nil_r. cbn [app]. reflexivity.
Qed.

Lemma process_tick_raises freq s pre g items post u1 u2 e :
  ticks_between_batches s < _tick_counter s + 1 ->
  _batches s = pre ++ (g, items) :: post ->
  batches_succeed (user s) pre = Some u1 ->
  process_batch u1 g items = (u2, Raised e) ->
  BatchingBolt_process_tick freq s =
    (Raise e,
     set_user u2 (set_current_tups items (after_flush pre u1 (ticked s))),
     flat_map (flush_events (auto_ack s)) pre ++ [CallProcessBatch g items]).
Proof.
  intros Hlt Hb Hok Hg.
  unfold BatchingBolt_process_tick.
  rewrite (bind_Ok _ _ s tt (ticked s) []) by reflexivity.
  rewrite (bind_Ok _ _ (ticked s) (ticked s) (ticked s) []) by reflexivity.
  change (ticks_between_batches (ticked s)) with (ticks_between_batches s).
  change (_tick_counter (ticked s)) with (_tick_counter s + 1).
  change (_batches (ticked s)) with (_batches s).
  destruct (Z.ltb_spec (ticks_between_batches s) (_tick_counter s + 1)); [|lia].
  rewrite Hb.
  destruct (pre ++ (g, items) :: post) as [|kb d] eqn:E;
    [destruct pre; discriminate|].
  rewrite <- E.
  rewrite (bind_Raise _ _ _ _ _ _
             (for_each_flush_raises pre g items post (ticked s) u1 u2 e Hok Hg)).
  reflexivity.
Qed.

Lemma BatchingBolt_handle_run_exception_eq e s :
  BatchingBolt_handle_run_exception e s =
    (Exit 1, s,
     RaiseException e (_current_tups s) ::
     (if auto_fail s then fail_events (List.concat (map snd (_batches s))) else [])).
Proof.
  unfold BatchingBolt_handle_run_exception.
  rewrite (bind_Ok _ _ s s s []) by reflexivity.
  rewrite (bind_Ok _ _ s tt s [RaiseException e (_current_tups s)]) by reflexivity.
  unfold when. destruct (auto_fail s).
  - rewrite (bind_Ok _ _ _ _ _ _ (for_each_fail_all (_batches s) s)).
    cbn. rewrite app_nil_r. reflexivity.
  - reflexivity.
Qed.

Lemma sent_app ev1 ev2 : sent (ev1 ++ ev2) = sent ev1 ++ sent ev2.
Proof.
  induction ev1 as [|e ev1 IH]; [reflexivity|].
  destruct e; cbn; rewrite ?IH; reflexivity.
Qed.

Lemma failed_app m1 m2 : failed (m1 ++ m2) = failed m1 ++ failed m2.
Proof.
  induction m1 as [|m m1 IH]; [reflexivity|].
  destruct m; cbn; rewrite ?IH; reflexivity.
Qed.

Lemma failed_fail_events l : failed (sent (fail_events l)) = map id l.
Proof. induction l as [|t l IH]; cbn; [reflexivity | f_equal; exact IH]. Qed.

Lemma concat_cleared (pre : list (Key * list Tuple)) :
  List.concat (map snd (map (fun kb => (fst kb, @nil Tuple)) pre)) = [].
Proof. induction pre as [|kb pre IH]; [reflexivity | exact IH]. Qed.

(** What the whole run has failed when the [k+1]-th dispatch of a
    batching bolt raises: the tuples that are in [_batches] then. *)
Lemma BatchingBolt_run_failed k n s0 s1 ev1 sk evk s' ev' e :
  call_hook CallInitialize initialize s0 = (Ok tt, s1, ev1) ->
  run_loop BatchingBoltClass k s1 = (Ok tt, sk, evk) ->
  _run BatchingBoltClass sk = (Raise e, s', ev') ->
  let r := run BatchingBoltClass (k + S n) s0 in
  outcome_of r = Exit 1 /\
  bolt_of r = s' /\
  In (RaiseException e (_current_tups s')) (events_of r) /\
  failed (sent (events_of r)) =
    if auto_fail s' then map id (List.concat (map snd (_batches s'))) else [].
Proof.
  intros Hi Hk Hr r. subst r.
  rewrite (run_raises BatchingBoltClass k n _ _ _ _ _ _ _ _ Hi Hk Hr).
  cbn [cls_handle_run_exception BatchingBoltClass].
  rewrite BatchingBolt_handle_run_exception_eq.
  unfold outcome_of, bolt_of, events_of. cbn [fst snd].
  split; [reflexivity|]. split; [reflexivity|]. split.
  - right. apply in_or_app. right. apply in_or_app. right.
    apply in_or_app. right. left. reflexivity.
  - assert (H1 : failed (sent ev1) = []).
    { apply not_fail_failed.
      pose proof (writes_call_hook not_fail CallInitialize initialize I s0) as W.
      rewrite Hi in W. exact W. }
    assert (H2 : failed (sent evk) = []).
    { pose proof (BatchingBolt_run_loop_failed k s1) as W.
      rewrite Hk in W. exact W. }
    assert (H3 : failed (sent ev') = []).
    { apply not_fail_failed.
      pose proof (_run_not_fail BatchingBoltClass
                    BatchingBolt_process_not_fail
                    BatchingBolt_process_tick_not_fail sk) as W.
      rewrite Hr in W. exact W. }
    cbn [sent]. rewrite !sent_app, !failed_app, H1, H2, H3. cbn [app sent].
    destruct (auto_fail s'); [apply failed_fail_events | reflexivity].
Qed.

(** C3: a tick starts a flush over the groups [pre], then [g], then
    [post]; [process_batch] returns on the groups of [pre] and raises
    on [g]; [auto_fail] is set.  Then the run ends by [sys.exit(1)];
    the commands [fail] of the whole run are one for each tuple of
    [g] and of the groups after it, in order, and no other; with
    distinct ids in the buffers, each of these ids is failed exactly
    once and no id of a tuple of [pre] is failed.  The groups of
    [pre] are in the dict with an empty buffer: each was set to [[]]
    at the end of its own turn of the loop. *)
Theorem flush_failure_C3
    k n s0 s1 ev1 s evk tick freq rest pre g items post u1 u2 e :
  call_hook CallInitialize initialize s0 = (Ok tt, s1, ev1) ->
  run_loop BatchingBoltClass k s1 = (Ok tt, s, evk) ->
  inbound (tuples_read s) = Returned tick ->
  is_heartbeat tick = false ->
  is_tick tick = true ->
  values tick = freq :: rest ->
  ticks_between_batches s < _tick_counter s + 1 ->
  _batches s = pre ++ (g, items) :: post ->
  NoDup (map fst (_batches s)) ->
  NoDup (map id (List.concat (map snd (_batches s)))) ->
  batches_succeed (user s) pre = Some u1 ->
  process_batch u1 g items = (u2, Raised e) ->
  auto_fail s = true ->
  let r := run BatchingBoltClass (k + S n) s0 in
  let fails := failed (sent (events_of r)) in
  outcome_of r = Exit 1 /\
  fails = map id (items ++ List.concat (map snd post)) /\
  (forall t, In t (items ++ List.concat (map snd post)) ->
     count_occ string_dec fails (id t) = 1%nat) /\
  (forall t, In t (List.concat (map snd pre)) -> ~ In (id t) fails) /\
  _batches (bolt_of r) = map (fun kb => (fst kb, [])) pre ++ (g, items) :: post.
Proof.
  intros Hi Hk Hin Hh Ht Hv Hlt Hb Hkeys Hids Hpre Hg Hfail r fails.
  set (s' := set_user u2 (set_current_tups items
                (after_flush pre u1 (ticked (received tick s))))).
  assert (Hr : _run BatchingBoltClass s =
               (Raise e, s',
                ReadTuple :: flat_map (flush_events (auto_ack s)) pre ++
                  [CallProcessBatch g items])).
  { rewrite (_run_tick BatchingBoltClass s tick freq rest Hin Hh Ht Hv).
    cbn [cls_process_tick BatchingBoltClass].
    rewrite (bind_Raise _ _ _ _ _ _
               (process_tick_raises freq (received tick s) pre g items post
                  u1 u2 e Hlt Hb Hpre Hg)).
    reflexivity. }
  destruct (BatchingBolt_run_failed k n s0 s1 ev1 s evk s' _ e Hi Hk Hr)
    as (Ho & Hs & _ & Hf).
  fold r in Ho, Hs, Hf. fold fails in Hf.
  assert (Hd : _batches s' = map (fun kb => (fst kb, [])) pre ++ (g, items) :: post).
  { subst s'. cbn. rewrite Hb.
    apply (fold_clear_group pre [] ((g, items) :: post)). cbn [app].
    rewrite Hb, map_app in Hkeys. apply NoDup_app_remove_r in Hkeys. exact Hkeys. }
  assert (Hfails : fails = map id (items ++ List.concat (map snd post))).
  { rewrite Hf. change (auto_fail s') with (auto_fail s). rewrite Hfail, Hd.
    rewrite map_app, concat_app, concat_cleared. reflexivity. }
  rewrite Hb, map_app, concat_app, map_app in Hids. cbn [map List.concat] in Hids.
  split; [exact Ho|]. split; [exact Hfails|]. split; [|split].
  - intros t Hint. rewrite Hfails.
    apply NoDup_count_occ'.
    + apply NoDup_app_remove_l in Hids. exact Hids.
    + apply in_map. exact Hint.
  - intros t Hint. rewrite Hfails.
    apply (NoDup_app_disjoint _ _ _ Hids). apply in_map. exact Hint.
  - rewrite Hs. exact Hd.
Qed.

Lemma BatchingBolt_process_raises tup s u' e :
  group_key (user s) tup = (u', Raised e) ->
  BatchingBolt_process tup s = (Raise e, set_user u' s, [CallGroupKey tup]).
Proof.
  intros H. unfold BatchingBolt_process, call_hook, bind, event, get, modify, raise.
  cbn. rewrite H. reflexivity.
Qed.

Lemma BatchingBolt_process_returns tup s u' key :
  group_key (user s) tup = (u', Returned key) ->
  BatchingBolt_process tup s =
    (Ok tt,
     set_batches (dict_set key (batch_of key (_batches s) ++ [tup]) (_batches s))
       (set_user u' s),
     [CallGroupKey tup]).
Proof.
  intros H. unfold BatchingBolt_process, call_hook, bind, event, get, modify, ret.
  cbn. rewrite H. reflexivity.
Qed.

(** C9: a data tuple [tup] is being dispatched by a batching bolt and
    [group_key] raises, so that [tup] is in no buffer; [auto_fail] is
    set.  Then [raise_exception] is called with [[tup]], the commands
    [fail] of the whole run are one for each buffered tuple and no
    other, so none for [tup] (unless a buffered tuple carries its
    id), and the run ends by [sys.exit(1)]. *)
Theorem group_key_failure_C9 k n s0 s1 ev1 s evk tup u' e :
  call_hook CallInitialize initialize s0 = (Ok tt, s1, ev1) ->
  run_loop BatchingBoltClass k s1 = (Ok tt, s, evk) ->
  inbound (tuples_read s) = Returned tup ->
  is_heartbeat tup = false ->
  is_tick tup = false ->
  group_key (user s) tup = (u', Raised e) ->
  auto_fail s = true ->
  let r := run BatchingBoltClass (k + S n) s0 in
  let fails := failed (sent (events_of r)) in
  outcome_of r = Exit 1 /\
  _batches (bolt_of r) = _batches s /\
  In (RaiseException e [tup]) (events_of r) /\
  fails = map id (List.concat (map snd (_batches s))) /\
  (~ In (id tup) (map id (List.concat (map snd (_batches s)))) ->
   ~ In (id tup) fails).
Proof.
  intros Hi Hk Hin Hh Ht Hg Hfail r fails.
  set (s' := set_user u' (received tup s)).
  assert (Hr : _run BatchingBoltClass s = (Raise e, s', [ReadTuple; CallGroupKey tup])).
  { rewrite (_run_data BatchingBoltClass s tup Hin Hh Ht).
    cbn [cls_process BatchingBoltClass].
    rewrite (bind_Raise _ _ _ _ _ _
               (bind_Raise _ _ _ _ _ _
                  (BatchingBolt_process_raises tup (received tup s) u' e Hg))).
    reflexivity. }
  destruct (BatchingBolt_run_failed k n s0 s1 ev1 s evk s' _ e Hi Hk Hr)
    as (Ho & Hs & Hex & Hf).
  fold r in Ho, Hs, Hex, Hf. fold fails in Hf.
  change (auto_fail s') with (auto_fail s) in Hf. rewrite Hfail in Hf.
  repeat split; try assumption.
  - rewrite Hs. reflexivity.
  - rewrite Hf. auto.
Qed.

(** ** When a tick flushes *)

Lemma batch_calls_app ev1 ev2 :
  batch_calls (ev1 ++ ev2) = batch_calls ev1 ++ batch_calls ev2.
Proof.
  induction ev1 as [|e ev1 IH]; [reflexivity|].
  destruct e; cbn; rewrite ?IH; reflexivity.
Qed.

(** A turn of the loop starts by calling [process_batch]. *)
Lemma flush_batch_calls key batch s :
  exists ev, events_of (flush_batch (key, batch) s) = CallProcessBatch key batch :: ev.
Proof.
  unfold flush_batch, call_hook, bind, modify, get, event, events_of. cbn.
  destruct (process_batch (user s) key batch) as [u' [r|e]]; cbn.
  - match goal with
    | |- context [when ?b ?m ?s0] => destruct (when b m s0) as [[[x|e|n] s1] ev1]
    end; cbn; eexists; reflexivity.
  - eexists; reflexivity.
Qed.

Lemma for_each_flush_calls kb d s :
  batch_calls (events_of (for_each (kb :: d) flush_batch s)) <> [].
Proof.
  destruct kb as [key batch]. cbn [for_each].
  destruct (flush_batch_calls key batch s) as [ev Hev].
  unfold bind, events_of in *.
  destruct (flush_batch (key, batch) s) as [[[x|e|n] s1] ev1]; cbn in Hev; subst ev1.
  - destruct (for_each d flush_batch s1) as [[o s2] ev2]. cbn. discriminate.
  - cbn. discriminate.
  - cbn. discriminate.
Qed.


(** A tick that finds the count above the threshold and a group in
    the dict calls [process_batch]; if it returns, the counter is 0
    and the dict is empty. *)
Lemma process_tick_flush_shape freq s :
  ticks_between_batches s < _tick_counter s + 1 ->
  _batches s <> [] ->
  let r := BatchingBolt_process_tick freq s in
  batch_calls (events_of r) <> [] /\
  (outcome_of r = Ok tt ->
   _tick_counter (bolt_of r) = 0 /\ _batches (bolt_of r) = []).
Proof.
  intros Hlt Hne r. subst r.
  unfold BatchingBolt_process_tick.
  rewrite (bind_Ok _ _ s tt (ticked s) []) by reflexivity.
  rewrite (bind_Ok _ _ (ticked s) (ticked s) (ticked s) []) by reflexivity.
  change (ticks_between_batches (ticked s)) with (ticks_between_batches s).
  change (_tick_counter (ticked s)) with (_tick_counter s + 1).
  change (_batches (ticked s)) with (_batches s).
  destruct (Z.ltb_spec (ticks_between_batches s) (_tick_counter s + 1)); [|lia].
  destruct (_batches s) as [|kb d] eqn:E; [congruence|].
  pose proof (for_each_flush_calls kb d (ticked s)) as Hcalls.
  unfold bind, modify, outcome_of, bolt_of, events_of in *.
  destruct (for_each (kb :: d) flush_batch (ticked s)) as [[[x|e|n] s1] ev1];
    cbn in *; rewrite ?app_nil_r; (split; [exact Hcalls|]).
  - intros _. split; reflexivity.
  - intros H0. discriminate H0.
  - intros H0. discriminate H0.
Qed.


(** ** Invariants between two dispatches *)

Lemma dict_set_keys key v d :
  map fst (dict_set key v d) =
    if in_dec Key_eq_dec key (map fst d) then map fst d else map fst d ++ [key].
Proof.
  induction d as [|[k x] d IH]; cbn [dict_set map fst].
  - reflexivity.
  - destruct (Key_eq_dec k key) as [->|Hne].
    + destruct (in_dec Key_eq_dec key (key :: map fst d)) as [_|Hn];
        [reflexivity | exfalso; apply Hn; left; reflexivity].
    + cbn [map fst]. rewrite IH.
      destruct (in_dec Key_eq_dec key (map fst d)) as [Hin|Hn];
        destruct (in_dec Key_eq_dec key (k :: map fst d)) as [Hin'|Hn'];
        try reflexivity.
      * exfalso. apply Hn'. right. exact Hin.
      * exfalso. destruct Hin' as [->|Hin']; [congruence | contradiction].
Qed.

Lemma dict_set_NoDup key v d :
  NoDup (map fst d) -> NoDup (map fst (dict_set key v d)).
Proof.
  intros H. rewrite dict_set_keys.
  destruct (in_dec Key_eq_dec key (map fst d)) as [_|Hn]; [exact H|].
  apply NoDup_app; [exact H | repeat constructor; intros [] |].
  intros a Ha [<-|[]]. contradiction.
Qed.

Lemma dict_set_Forall (P : Key * list Tuple -> Prop) key v d :
  (forall k, P (k, v)) -> Forall P d -> Forall P (dict_set key v d).
Proof.
  intros Hv. induction 1 as [|[k x] d Hk Hd IH]; cbn [dict_set].
  - repeat constructor. apply Hv.
  - destruct (Key_eq_dec k key); constructor; auto.
Qed.

Lemma batches_inv_heartbeat tup s :
  batches_inv s -> batches_inv (set_current_tups [] (received tup s)).
Proof. intros H. exact H. Qed.

Lemma BatchingBolt_process_inv tup s s' ev :
  BatchingBolt_process tup s = (Ok tt, s', ev) ->
  batches_inv s ->
  batches_inv s' /\ _batches s' <> [] /\
  _tick_counter s' = _tick_counter s /\
  ticks_between_batches s' = ticks_between_batches s.
Proof.
  intros H (Hk & Hne & Hc).
  destruct (group_key (user s) tup) as [u' [key|e]] eqn:E.
  - rewrite (BatchingBolt_process_returns tup s u' key E) in H.
    inversion H; subst; clear H. cbn. repeat split.
    + apply dict_set_NoDup. exact Hk.
    + apply dict_set_Forall; [|exact Hne].
      intros k0 Hnil. cbn in Hnil. apply app_eq_nil in Hnil.
      destruct Hnil as [_ Hnil]. discriminate Hnil.
    + exact Hc.
    + destruct (_batches s) as [|[k x] d]; cbn; [discriminate|].
      destruct (Key_eq_dec k key); discriminate.
  - rewrite (BatchingBolt_process_raises tup s u' e E) in H. discriminate H.
Qed.

Lemma BatchingBolt_process_tick_inv freq s s' ev :
  BatchingBolt_process_tick freq s = (Ok tt, s', ev) ->
  batches_inv s -> batches_inv s'.
Proof.
  intros H (Hk & Hne & Hc).
  destruct (Z.lt_ge_cases (ticks_between_batches s) (_tick_counter s + 1))
    as [Hlt|Hge].
  2:{ rewrite (process_tick_waits freq s Hge) in H. inversion H; subst.
      repeat split; cbn; try assumption. lia. }
  destruct (_batches s) as [|kb d] eqn:E.
  { rewrite (process_tick_nothing_to_save freq s E) in H. inversion H; subst.
    repeat split; cbn; rewrite ?E; try constructor. lia. }
  assert (Hd : _batches s <> []) by (rewrite E; discriminate).
  destruct (process_tick_flush_shape freq s Hlt Hd) as [_ Hret].
  rewrite H in Hret. destruct (Hret eq_refl) as [Hc' Hb']. cbn in Hc', Hb'.
  repeat split; rewrite ?Hb'; try constructor. lia.
Qed.

Lemma _run_tick_no_value c s tup :
  inbound (tuples_read s) = Returned tup ->
  is_heartbeat tup = false ->
  is_tick tup = true ->
  values tup = [] ->
  _run c s = (Raise IndexError, received tup s, [ReadTuple]).
Proof.
  intros H Hh Ht Hv.
  unfold _run, read_tuple, bind, get, event, modify, ret, raise. cbn.
  rewrite H. cbn. rewrite Hh, Ht, Hv. reflexivity.
Qed.

Lemma auto_ack_step tup s :
  (s' <- get ;; when (auto_ack s') (ack (IsTuple tup))) s =
    (Ok tt, s, if auto_ack s then [Send (MAck (id tup))] else []).
Proof.
  unfold bind, get, when, ack, send_message, event, ret. cbn.
  destruct (auto_ack s); reflexivity.
Qed.

(** The invariant holds again after every dispatch that returns. *)
Lemma BatchingBolt_run_inv s s' ev :
  _run BatchingBoltClass s = (Ok tt, s', ev) ->
  batches_inv s -> batches_inv s'.
Proof.
  intros H Hinv.
  destruct (inbound (tuples_read s)) as [tup|e] eqn:Hin.
  2:{ rewrite (_run_read_raises _ s e Hin) in H. discriminate H. }
  destruct (is_heartbeat tup) eqn:Hh.
  { rewrite (_run_heartbeat _ s tup Hin Hh) in H. inversion H; subst. exact Hinv. }
  destruct (is_tick tup) eqn:Ht.
  - destruct (values tup) as [|freq rest] eqn:Hv.
    { rewrite (_run_tick_no_value _ s tup Hin Hh Ht Hv) in H. discriminate H. }
    rewrite (_run_tick _ s tup freq rest Hin Hh Ht Hv) in H.
    cbn [cls_process_tick BatchingBoltClass] in H.
    unfold outcome_of, bolt_of, events_of in H.
    destruct ((BatchingBolt_process_tick freq ;;; modify (set_current_tups []))
                (received tup s)) as [[o s2] ev2] eqn:E.
    cbn in H. inversion H; subst.
    apply bind_Ok_inv in E. destruct E as ([] & s1 & ev1 & ev3 & E1 & E2 & _).
    inversion E2; subst.
    apply (BatchingBolt_process_tick_inv freq (received tup s) s1 ev1 E1 Hinv).
  - rewrite (_run_data _ s tup Hin Hh Ht) in H.
    cbn [cls_process BatchingBoltClass] in H.
    unfold outcome_of, bolt_of, events_of in H.
    match type of H with
    | context [bind ?m ?k (received tup s)] =>
        destruct (bind m k (received tup s)) as [[o s2] ev2] eqn:E
    end.
    cbn in H. inversion H; subst.
    apply bind_Ok_inv in E. destruct E as ([] & s1 & ev1 & ev3 & E1 & E2 & _).
    inversion E2; subst.
    apply bind_Ok_inv in E1. destruct E1 as ([] & s3 & ev4 & ev5 & E3 & E4 & _).
    rewrite auto_ack_step in E4. inversion E4; subst.
    apply (BatchingBolt_process_inv tup (received tup s) s1 ev4 E3 Hinv).
Qed.

Lemma BatchingBolt_run_loop_inv fuel : forall s s' ev,
  run_loop BatchingBoltClass fuel s = (Ok tt, s', ev) ->
  batches_inv s -> batches_inv s'.
Proof.
  induction fuel as [|n IH]; intros s s' ev H Hinv.
  - inversion H; subst. exact Hinv.
  - cbn [run_loop] in H. apply bind_Ok_inv in H.
    destruct H as ([] & s1 & ev1 & ev2 & H1 & H2 & _).
    apply (IH s1 s' ev2 H2). apply (BatchingBolt_run_inv s s1 ev1 H1 Hinv).
Qed.

Lemma new_bolt_inv anchor ack_ fail_ ticks u :
  batches_inv (new_bolt anchor ack_ fail_ ticks u).
Proof. repeat split; cbn; try constructor. lia. Qed.



(** ** One dispatch of a batching bolt *)

Lemma BatchingBolt_run_buffers s tup u' key :
  inbound (tuples_read s) = Returned tup ->
  is_heartbeat tup = false ->
  is_tick tup = false ->
  group_key (user s) tup = (u', Returned key) ->
  _run BatchingBoltClass s =
    (Ok tt,
     set_current_tups []
       (set_batches (dict_set key (batch_of key (_batches s) ++ [tup]) (_batches s))
          (set_user u' (received tup s))),
     ReadTuple :: CallGroupKey tup ::
       (if auto_ack s then [Send (MAck (id tup))] else [])).
Proof.
  intros Hin Hh Ht Hg.
  rewrite (_run_data BatchingBoltClass s tup Hin Hh Ht).
  cbn [cls_process BatchingBoltClass].
  rewrite bind_assoc.
  rewrite (bind_Ok _ _ _ _ _ _
             (BatchingBolt_process_returns tup (received tup s) u' key Hg)).
  rewrite (bind_Ok _ _ _ _ _ _ (auto_ack_step tup _)).
  unfold outcome_of, bolt_of, events_of, modify. cbn.
  destruct (auto_ack s); reflexivity.
Qed.

Lemma BatchingBolt_run_tick_waits s tup freq rest :
  inbound (tuples_read s) = Returned tup ->
  is_heartbeat tup = false ->
  is_tick tup = true ->
  values tup = freq :: rest ->
  _tick_counter s + 1 <= ticks_between_batches s \/ _batches s = [] ->
  _run BatchingBoltClass s =
    (Ok tt, set_current_tups [] (ticked (received tup s)), [ReadTuple]).
Proof.
  intros Hin Hh Ht Hv Hw.
  rewrite (_run_tick BatchingBoltClass s tup freq rest Hin Hh Ht Hv).
  cbn [cls_process_tick BatchingBoltClass].
  assert (E : BatchingBolt_process_tick freq (received tup s) =
              (Ok tt, ticked (received tup s), [])).
  { destruct Hw as [Hw|Hw].
    - apply process_tick_waits. exact Hw.
    - apply process_tick_nothing_to_save. exact Hw. }
  rewrite (bind_Ok _ _ _ _ _ _ E). reflexivity.
Qed.

Lemma BatchingBolt_run_tick_flushes s tup freq rest u1 :
  inbound (tuples_read s) = Returned tup ->
  is_heartbeat tup = false ->
  is_tick tup = true ->
  values tup = freq :: rest ->
  ticks_between_batches s < _tick_counter s + 1 ->
  _batches s <> [] ->
  batches_succeed (user s) (_batches s) = Some u1 ->
  _run BatchingBoltClass s =
    (Ok tt,
     set_current_tups []
       (set_tick_counter 0
          (set_batches [] (after_flush (_batches s) u1 (ticked (received tup s))))),
     ReadTuple :: flat_map (flush_events (auto_ack s)) (_batches s)).
Proof.
  intros Hin Hh Ht Hv Hlt Hne Hok.
  rewrite (_run_tick BatchingBoltClass s tup freq rest Hin Hh Ht Hv).
  cbn [cls_process_tick BatchingBoltClass].
  rewrite (bind_Ok _ _ _ _ _ _
             (process_tick_flushes freq (received tup s) u1 Hlt Hne Hok)).
  unfold outcome_of, bolt_of, events_of, modify. cbn.
  rewrite app_nil_r. reflexivity.
Qed.

(** * Further properties of emit *)

(** A call of [emit] on a list or tuple returns, and writes the one
    message that carries the payload. *)
Lemma emit_sequence tup stream_ anchors direct_task need s :
  is_sequence tup = true ->
  exists res s1 ev1 m,
    emit tup stream_ anchors direct_task need s = (Ok res, s1, ev1) /\
    sent ev1 = [MEmit m] /\
    msg_tuple m = tup.
Proof.
  intros H.
  destruct (emit_events tup stream_ anchors direct_task need s H)
    as (m & Hev & Htup & _).
  unfold events_of in Hev.
  assert (Ho : exists res,
             fst (fst (emit tup stream_ anchors direct_task need s)) = Ok res).
  { unfold emit. rewrite H. cbn [negb]. run_emit.
    destruct (is_True need); [destruct direct_task|]; cbn; eexists; reflexivity. }
  destruct Ho as [res Ho].
  destruct (emit tup stream_ anchors direct_task need s) as [[o s1] ev1].
  cbn in Hev, Ho. subst o.
  exists res, s1, ev1, m. split; [reflexivity|]. split; [|exact Htup].
  rewrite Hev. cbn.
  destruct (is_True need); [destruct direct_task|]; reflexivity.
Qed.

Lemma emit_payloads_app m1 m2 :
  emit_payloads (m1 ++ m2) = emit_payloads m1 ++ emit_payloads m2.
Proof.
  induction m1 as [|m m1 IH]; [reflexivity|].
  destruct m; cbn; rewrite ?IH; reflexivity.
Qed.

Lemma emit_each_sequences tuples stream_ anchors direct_task need :
  Forall (fun t => is_sequence t = true) tuples ->
  forall s, exists rs s' ev,
    emit_each tuples stream_ anchors direct_task need s = (Ok rs, s', ev) /\
    List.length rs = List.length tuples /\
    emit_payloads (sent ev) = tuples /\
    List.length (sent ev) = List.length tuples.
Proof.
  induction 1 as [|tup rest Htup _ IH]; intros s.
  - exists [], s, []. repeat split.
  - destruct (emit_sequence tup stream_ anchors direct_task need s Htup)
      as (res & s1 & ev1 & m & E & Hs & Hm).
    destruct (IH s1) as (rs & s2 & ev2 & E2 & Hl & Hp & Hn).
    exists (res :: rs), s2, (ev1 ++ ev2).
    cbn [emit_each].
    rewrite (bind_Ok _ _ _ _ _ _ E), (bind_Ok _ _ _ _ _ _ E2).
    unfold outcome_of, bolt_of, events_of, ret. cbn [fst snd].
    rewrite app_nil_r, sent_app, emit_payloads_app, length_app, Hs, Hp, Hn.
    cbn. rewrite Hm, Hl. repeat split.
Qed.

(** X1: [emit_many] on valid payloads sends one message per payload, in
    the order of the payloads, and returns one result per payload. *)
Theorem emit_many_in_order tuples stream_ anchors direct_task need s :
  Forall (fun t => is_sequence t = true) tuples ->
  let r := emit_many (PyList tuples) stream_ anchors direct_task need s in
  (exists rs, outcome_of r = Ok rs /\ List.length rs = List.length tuples) /\
  emit_payloads (sent (events_of r)) = tuples /\
  List.length (sent (events_of r)) = List.length tuples.
Proof.
  intros Hall r. subst r. cbn [emit_many].
  set (need' := match need with Some v => v | None => PyNone end).
  destruct (emit_each_sequences tuples stream_ anchors direct_task need' Hall s)
    as (rs & s' & ev & E & Hl & Hp & Hn).
  rewrite E. cbn. split; [exists rs; split; [reflexivity | exact Hl]|].
  split; assumption.
Qed.

(** X2: [emit_many] is not atomic: when a payload is not a list or
    tuple, the payloads before it have been sent, one message each,
    nothing is sent for it or for the payloads after it, and
    [TypeError] propagates. *)
Theorem emit_many_stops_at_bad_payload
    pre bad post stream_ anchors direct_task need s :
  Forall (fun t => is_sequence t = true) pre ->
  is_sequence bad = false ->
  let r := emit_many (PyList (pre ++ bad :: post)) stream_ anchors direct_task
             need s in
  outcome_of r = Raise TypeError /\
  emit_payloads (sent (events_of r)) = pre /\
  List.length (sent (events_of r)) = List.length pre.
Proof.
  intros Hall Hbad r. subst r. cbn [emit_many].
  set (need' := match need with Some v => v | None => PyNone end).
  revert s. induction Hall as [|tup rest Htup _ IH]; intros s.
  - cbn [app emit_each].
    rewrite (bind_Raise _ _ _ _ _ _
               (emit_not_sequence bad stream_ anchors direct_task need' s Hbad)).
    repeat split.
  - destruct (emit_sequence tup stream_ anchors direct_task need' s Htup)
      as (res & s1 & ev1 & m & E & Hs & Hm).
    cbn [app emit_each]. rewrite (bind_Ok _ _ _ _ _ _ E).
    destruct (IH s1) as (IHo & IHp & IHn).
    unfold outcome_of, bolt_of, events_of in *. cbn [fst snd].
    unfold bind at 1 2 3.
    destruct (emit_each (rest ++ bad :: post) stream_ anchors direct_task need' s1)
      as [[o2 s2] ev2].
    cbn in IHo, IHp, IHn. subst o2. cbn [fst snd].
    rewrite sent_app, emit_payloads_app, length_app, Hs, IHp, IHn. cbn.
    rewrite Hm. repeat split.
Qed.

(** X3: with [need_task_ids=True] and no [direct_task], [emit] calls
    [read_task_ids] once, after the message is written, returns what
    this call of [read_task_ids] gives, and changes no field of the
    bolt but the count of answers read. *)
Theorem emit_reads_one_answer tup stream_ anchors s :
  is_sequence tup = true ->
  let r := emit tup stream_ anchors None (PyBool true) s in
  outcome_of r = Ok (Some (task_ids_of (task_ids_read s))) /\
  bolt_of r = set_task_ids_read (S (task_ids_read s)) s /\
  exists m,
    events_of r =
      [Acquire ReaderLock; Acquire WriterLock; Send (MEmit m); ReadTaskIds;
       Release WriterLock; Release ReaderLock].
Proof.
  intros H r. subst r. unfold emit. rewrite H. cbn [negb]. run_emit.
  repeat split. eexists. reflexivity.
Qed.

(** X4: the locks of [emit]: a call that raises [TypeError] takes no
    lock; any other call takes the reader lock, then the writer
    lock, gives them back in the opposite order, and does all it
    writes and reads in between. *)
Theorem emit_lock_discipline tup stream_ anchors direct_task need s :
  exists body,
    events_of (emit tup stream_ anchors direct_task need s) =
      (if is_sequence tup
       then [Acquire ReaderLock; Acquire WriterLock] ++ body ++
            [Release WriterLock; Release ReaderLock]
       else []) /\
    Forall is_io body.
Proof.
  destruct (is_sequence tup) eqn:H.
  - destruct (emit_events tup stream_ anchors direct_task need s H)
      as (m & Hev & _).
    exists (Send (MEmit m) ::
            (if is_True need
             then match direct_task with Some _ => [] | None => [ReadTaskIds] end
             else [])).
    split; [exact Hev|].
    destruct (is_True need); [destruct direct_task|]; repeat constructor.
  - exists []. rewrite (emit_not_sequence _ _ _ _ _ _ H). split; constructor.
Qed.

(** X5: [BatchingBolt.emit] sets [need_task_ids] to [False] in the
    message, never calls [read_task_ids], returns [None] and leaves
    the bolt as it was, with or without [direct_task]. *)
Theorem BatchingBolt_emit_fire_and_forget tup stream_ anchors direct_task s :
  is_sequence tup = true ->
  let r := BatchingBolt_emit tup stream_ anchors direct_task s in
  outcome_of r = Ok None /\
  bolt_of r = s /\
  ~ In ReadTaskIds (events_of r) /\
  exists m, sent (events_of r) = [MEmit m] /\
            msg_need_task_ids m = Some (PyBool false) /\
            msg_task m = direct_task.
Proof.
  intros H r. subst r. unfold BatchingBolt_emit.
  destruct (emit_not_True tup stream_ anchors direct_task (PyBool false) s H
              eq_refl) as [Ho Hs].
  destruct (emit_events tup stream_ anchors direct_task (PyBool false) s H)
    as (m & Hev & _ & _ & _ & Htask & Hneed).
  split; [exact Ho|]. split; [exact Hs|]. rewrite Hev. cbn. split.
  - intros [X|[X|[X|[X|[X|[]]]]]]; discriminate X.
  - exists m. repeat split; assumption.
Qed.

(** * Further properties of the dispatch *)

(** X6: a heartbeat is answered by one [sync]: no hook is called, no
    other message is written, and the batches, the tick counter and
    the user's state are left as they were, in any subclass. *)
Theorem heartbeat_answers_sync c s tup :
  inbound (tuples_read s) = Returned tup ->
  is_heartbeat tup = true ->
  let r := _run c s in
  outcome_of r = Ok tt /\
  events_of r = [ReadTuple; Send MSync] /\
  _current_tups (bolt_of r) = [] /\
  _batches (bolt_of r) = _batches s /\
  _tick_counter (bolt_of r) = _tick_counter s /\
  user (bolt_of r) = user s.
Proof.
  intros Hin Hh r. subst r. rewrite (_run_heartbeat c s tup Hin Hh).
  repeat split.
Qed.

Lemma call_hook_returns {A} ev (h : U -> U * Result A) s u' a :
  h (user s) = (u', Returned a) ->
  call_hook ev h s = (Ok a, set_user u' s, [ev]).
Proof.
  intros H. unfold call_hook, bind, event, get, modify, ret. cbn.
  rewrite H. reflexivity.
Qed.

Lemma call_hook_raises {A} ev (h : U -> U * Result A) s u' e :
  h (user s) = (u', Raised e) ->
  call_hook ev h s = (Raise e, set_user u' s, [ev]).
Proof.
  intros H. unfold call_hook, bind, event, get, modify, raise. cbn.
  rewrite H. reflexivity.
Qed.

(** X7: in a plain bolt, a data tuple whose [process] returns is acked
    once, after [process], when [auto_ack] is set, and not at all
    otherwise; then [_current_tups] is empty again. *)
Theorem Bolt_acks_after_process s tup u' :
  inbound (tuples_read s) = Returned tup ->
  is_heartbeat tup = false ->
  is_tick tup = false ->
  process (user s) tup = (u', Returned tt) ->
  let r := _run BoltClass s in
  outcome_of r = Ok tt /\
  events_of r =
    ReadTuple :: CallProcess tup ::
      (if auto_ack s then [Send (MAck (id tup))] else []) /\
  _current_tups (bolt_of r) = [].
Proof.
  intros Hin Hh Ht Hp r. subst r.
  rewrite (_run_data BoltClass s tup Hin Hh Ht).
  cbn [cls_process BoltClass].
  rewrite bind_assoc.
  rewrite (bind_Ok _ _ _ _ _ _
             (call_hook_returns (CallProcess tup) (fun u => process u tup)
                (received tup s) u' tt Hp)).
  rewrite (bind_Ok _ _ _ _ _ _ (auto_ack_step tup _)).
  unfold outcome_of, bolt_of, events_of, modify. cbn.
  destruct (auto_ack s); repeat split.
Qed.

(** X8: in a plain bolt a tick is handed to [process_tick] with the first
    value of the tuple, and nothing is written for it: a tick is not
    acked, whatever [auto_ack] is. *)
Theorem Bolt_tick_is_not_acked s tup freq rest u' :
  inbound (tuples_read s) = Returned tup ->
  is_heartbeat tup = false ->
  is_tick tup = true ->
  values tup = freq :: rest ->
  process_tick (user s) freq = (u', Returned tt) ->
  let r := _run BoltClass s in
  outcome_of r = Ok tt /\
  events_of r = [ReadTuple; CallProcessTick freq] /\
  sent (events_of r) = [].
Proof.
  intros Hin Hh Ht Hv Hp r. subst r.
  rewrite (_run_tick BoltClass s tup freq rest Hin Hh Ht Hv).
  cbn [cls_process_tick BoltClass].
  rewrite (bind_Ok _ _ _ _ _ _
             (call_hook_returns (CallProcessTick freq)
                (fun u => process_tick u freq) (received tup s) u' tt Hp)).
  repeat split.
Qed.

(** X9: a tick tuple without values: [tup.values[0]] raises [IndexError]
    before [process_tick] is called; a plain bolt reports the tick
    tuple, fails it when [auto_fail] is set, and exits with status 1. *)
Theorem tick_without_values_ends_the_run k n s0 s1 ev1 s evk tup :
  call_hook CallInitialize initialize s0 = (Ok tt, s1, ev1) ->
  run_loop BoltClass k s1 = (Ok tt, s, evk) ->
  inbound (tuples_read s) = Returned tup ->
  is_heartbeat tup = false ->
  is_tick tup = true ->
  values tup = [] ->
  let r := run BoltClass (k + S n) s0 in
  outcome_of r = Exit 1 /\
  events_of r =
    ReadHandshake :: ev1 ++ evk ++
      [ReadTuple; RaiseException IndexError [tup]] ++
      (if auto_fail s then [Send (MFail (id tup))] else []).
Proof.
  intros Hi Hk Hin Hh Ht Hv r. subst r.
  rewrite (run_raises BoltClass k n _ _ _ _ _ _ _ _ Hi Hk
             (_run_tick_no_value BoltClass s tup Hin Hh Ht Hv)).
  cbn [cls_handle_run_exception BoltClass].
  rewrite Bolt_handle_run_exception_eq.
  unfold outcome_of, events_of. cbn. split; reflexivity.
Qed.

(** ** The buffers *)

Lemma dict_get_set_same key v d : dict_get key (dict_set key v d) = Some v.
Proof.
  induction d as [|[k x] d IH]; cbn.
  - destruct (Key_eq_dec key key); [reflexivity | congruence].
  - destruct (Key_eq_dec k key) as [E|E]; cbn.
    + destruct (Key_eq_dec k key); [reflexivity | contradiction].
    + destruct (Key_eq_dec k key); [contradiction | exact IH].
Qed.

Lemma dict_get_set_other key k' v d :
  k' <> key -> dict_get k' (dict_set key v d) = dict_get k' d.
Proof.
  intros Hne. induction d as [|[k x] d IH]; cbn.
  - destruct (Key_eq_dec key k'); [congruence | reflexivity].
  - destruct (Key_eq_dec k key) as [E|E]; cbn.
    + subst k. destruct (Key_eq_dec key k'); [congruence | reflexivity].
    + destruct (Key_eq_dec k k'); [reflexivity | exact IH].
Qed.

(** X10: [BatchingBolt.process] puts the tuple at the end of the buffer of
    its group and leaves every other buffer, the tick counter and
    [_current_tups] as they were; nothing is written. *)
Theorem process_appends_to_its_group tup s u' key :
  group_key (user s) tup = (u', Returned key) ->
  let r := BatchingBolt_process tup s in
  outcome_of r = Ok tt /\
  sent (events_of r) = [] /\
  batch_of key (_batches (bolt_of r)) = batch_of key (_batches s) ++ [tup] /\
  (forall k', k' <> key ->
     batch_of k' (_batches (bolt_of r)) = batch_of k' (_batches s)) /\
  _tick_counter (bolt_of r) = _tick_counter s /\
  _current_tups (bolt_of r) = _current_tups s.
Proof.
  intros Hg r. subst r. rewrite (BatchingBolt_process_returns tup s u' key Hg).
  unfold outcome_of, bolt_of, events_of. cbn [fst snd].
  split; [reflexivity|]. split; [reflexivity|]. split; [|split].
  - cbn. unfold batch_of at 1. rewrite dict_get_set_same. reflexivity.
  - intros k' Hne. cbn. unfold batch_of at 1 3.
    rewrite (dict_get_set_other _ _ _ _ Hne). reflexivity.
  - split; reflexivity.
Qed.

(** X11: in a batching bolt with [auto_ack], a data tuple is acked as
    soon as it is buffered: [_run] sends [ack] for it right after
    [process], while the tuple stays in its buffer and
    [process_batch] has not been called. *)
Theorem BatchingBolt_acks_on_arrival s tup u' key :
  inbound (tuples_read s) = Returned tup ->
  is_heartbeat tup = false ->
  is_tick tup = false ->
  group_key (user s) tup = (u', Returned key) ->
  auto_ack s = true ->
  let r := _run BatchingBoltClass s in
  outcome_of r = Ok tt /\
  events_of r = [ReadTuple; CallGroupKey tup; Send (MAck (id tup))] /\
  batch_of key (_batches (bolt_of r)) = batch_of key (_batches s) ++ [tup].
Proof.
  intros Hin Hh Ht Hg Hack r. subst r.
  rewrite (BatchingBolt_run_buffers s tup u' key Hin Hh Ht Hg), Hack.
  unfold outcome_of, bolt_of, events_of. cbn [fst snd].
  split; [reflexivity|]. split; [reflexivity|].
  cbn. unfold batch_of at 1. rewrite dict_get_set_same. reflexivity.
Qed.

Lemma batch_calls_flush_events ack_ d :
  batch_calls (flat_map (flush_events ack_) d) = d.
Proof.
  induction d as [|[k b] d IH]; [reflexivity|].
  cbn [flat_map flush_events fst snd app batch_calls].
  rewrite batch_calls_app, IH.
  destruct ack_; [|reflexivity].
  assert (E : batch_calls (ack_events b) = []).
  { induction b as [|t b IHb]; [reflexivity | exact IHb]. }
  rewrite E. reflexivity.
Qed.

Lemma sent_flush_events ack_ d :
  sent (flat_map (flush_events ack_) d) =
    if ack_ then map (fun t => MAck (id t)) (List.concat (map snd d)) else [].
Proof.
  induction d as [|[k b] d IH]; [destruct ack_; reflexivity|].
  cbn [flat_map flush_events fst snd app sent map List.concat].
  rewrite sent_app, IH. destruct ack_; [|reflexivity].
  rewrite map_app. f_equal.
  induction b as [|t b IHb]; [reflexivity | cbn; f_equal; exact IHb].
Qed.

(** X12: a flush in which [process_batch] returns on every group calls
    it exactly once for each group, in the order of the dict, with
    the tuples of the group in the order of their arrival; the acks
    are those of the buffered tuples, group after group, when
    [auto_ack] is set, and none otherwise; afterwards the dict is
    empty and the counter is 0. *)
Theorem flush_calls_each_group_once freq s u1 :
  ticks_between_batches s < _tick_counter s + 1 ->
  _batches s <> [] ->
  batches_succeed (user s) (_batches s) = Some u1 ->
  let r := BatchingBolt_process_tick freq s in
  outcome_of r = Ok tt /\
  batch_calls (events_of r) = _batches s /\
  sent (events_of r) =
    (if auto_ack s
     then map (fun t => MAck (id t)) (List.concat (map snd (_batches s)))
     else []) /\
  _batches (bolt_of r) = [] /\
  _tick_counter (bolt_of r) = 0.
Proof.
  intros Hlt Hne Hok r. subst r.
  rewrite (process_tick_flushes freq s u1 Hlt Hne Hok).
  unfold outcome_of, bolt_of, events_of. cbn [fst snd].
  rewrite batch_calls_flush_events, sent_flush_events. repeat split.
Qed.

(** * Further properties of the run *)

Lemma _run_Ok_current_tups c s s' ev :
  _run c s = (Ok tt, s', ev) -> _current_tups s' = [].
Proof.
  unfold _run. intros H.
  apply bind_Ok_inv in H. destruct H as (tup & s1 & ev1 & ev2 & _ & H & _).
  apply bind_Ok_inv in H. destruct H as ([] & s2 & ev3 & ev4 & _ & H & _).
  apply bind_Ok_inv in H. destruct H as ([] & s3 & ev5 & ev6 & _ & H & _).
  inversion H; subst. reflexivity.
Qed.

Lemma run_loop_Ok_current_tups c k : forall s s' ev,
  run_loop c k s = (Ok tt, s', ev) ->
  _current_tups s = [] -> _current_tups s' = [].
Proof.
  induction k as [|k IH]; intros s s' ev H H0.
  - inversion H; subst. exact H0.
  - cbn [run_loop] in H. apply bind_Ok_inv in H.
    destruct H as ([] & s1 & ev1 & ev2 & H1 & H2 & _).
    apply (IH s1 s' ev2 H2). apply (_run_Ok_current_tups c s s1 ev1 H1).
Qed.

Lemma call_hook_Ok_inv {A} ev (h : U -> U * Result A) s a s1 ev1 :
  call_hook ev h s = (Ok a, s1, ev1) ->
  exists u', s1 = set_user u' s /\ ev1 = [ev].
Proof.
  destruct (h (user s)) as [u' [x|e]] eqn:E.
  - rewrite (call_hook_returns ev h s u' x E). intros H. inversion H; subst.
    exists u'. split; reflexivity.
  - rewrite (call_hook_raises ev h s u' e E). discriminate.
Qed.

(** X13: between two dispatches of a batching bolt that started from
    [__init__]: the keys of the dict are distinct, no group is
    empty, the counter is not negative, no tuple is in flight, and
    no [fail] has been written. *)
Theorem batching_bolt_between_dispatches
    fuel anchor ack_ fail_ ticks u s' ev :
  run_loop BatchingBoltClass fuel (new_bolt anchor ack_ fail_ ticks u)
    = (Ok tt, s', ev) ->
  NoDup (map fst (_batches s')) /\
  Forall (fun kb => snd kb <> []) (_batches s') /\
  0 <= _tick_counter s' /\
  _current_tups s' = [] /\
  failed (sent ev) = [].
Proof.
  intros H.
  destruct (BatchingBolt_run_loop_inv fuel _ s' ev H
              (new_bolt_inv anchor ack_ fail_ ticks u)) as (Hk & Hne & Hc).
  split; [exact Hk|]. split; [exact Hne|]. split; [exact Hc|]. split.
  - apply (run_loop_Ok_current_tups BatchingBoltClass fuel _ s' ev H).
    reflexivity.
  - pose proof (BatchingBolt_run_loop_failed fuel
                  (new_bolt anchor ack_ fail_ ticks u)) as W.
    rewrite H in W. exact W.
Qed.

Lemma BoltClass_run_loop_failed fuel s :
  failed (sent (events_of (run_loop BoltClass fuel s))) = [].
Proof.
  apply not_fail_failed, run_loop_not_fail; cbn; intros x;
    apply writes_call_hook; exact I.
Qed.

(** X14: when [read_tuple] raises in a plain bolt, no tuple is in flight:
    the tuple that was dispatched before is neither reported nor
    failed, and the run has written no [fail] at all; the process
    exits with status 1. *)
Theorem read_failure_fails_no_tuple k n s0 s1 ev1 sk evk e :
  _current_tups s0 = [] ->
  call_hook CallInitialize initialize s0 = (Ok tt, s1, ev1) ->
  run_loop BoltClass k s1 = (Ok tt, sk, evk) ->
  inbound (tuples_read sk) = Raised e ->
  let r := run BoltClass (k + S n) s0 in
  outcome_of r = Exit 1 /\
  events_of r = ReadHandshake :: ev1 ++ evk ++ [ReadTuple] /\
  failed (sent (events_of r)) = [].
Proof.
  intros H0 Hi Hk Hin r. subst r.
  rewrite (run_raises BoltClass k n _ _ _ _ _ _ _ _ Hi Hk
             (_run_read_raises BoltClass sk e Hin)).
  cbn [cls_handle_run_exception BoltClass].
  rewrite Bolt_handle_run_exception_eq.
  destruct (call_hook_Ok_inv _ _ _ _ _ _ Hi) as (u' & -> & ->).
  assert (Hc : _current_tups sk = []).
  { apply (run_loop_Ok_current_tups BoltClass k _ sk evk Hk). exact H0. }
  unfold outcome_of, events_of. cbn [fst snd _current_tups set_tuples_read].
  rewrite Hc. rewrite app_nil_r.
  split; [reflexivity|]. split; [reflexivity|].
  pose proof (BoltClass_run_loop_failed k (set_user u' s0)) as W.
  rewrite Hk in W. unfold events_of in W. cbn [snd] in W.
  cbn [app sent]. rewrite sent_app, failed_app, W. reflexivity.
Qed.

Lemma run_initialize_raises c fuel s0 u' e :
  initialize (user s0) = (u', Raised e) ->
  run c fuel s0 =
    (outcome_of (cls_handle_run_exception c e (set_user u' s0)),
     bolt_of (cls_handle_run_exception c e (set_user u' s0)),
     [ReadHandshake; CallInitialize] ++
       events_of (cls_handle_run_exception c e (set_user u' s0))).
Proof.
  intros H. unfold run.
  rewrite (bind_Ok (event ReadHandshake) _ s0 tt s0 [ReadHandshake])
    by reflexivity.
  unfold try_except.
  rewrite (bind_Raise _ _ _ _ _ _
             (call_hook_raises CallInitialize initialize s0 u' e H)).
  unfold outcome_of, bolt_of, events_of. cbn.
  destruct (cls_handle_run_exception c e (set_user u' s0)) as [[o s2] ev2].
  reflexivity.
Qed.

(** X15: when [initialize] raises, no tuple is ever read.  A plain bolt
    exits with status 1 and reports nothing; a batching bolt calls
    [raise_exception] with the empty [_current_tups] and exits with
    status 1. *)
Theorem initialize_failure_ends_the_run fuel s0 u' e :
  initialize (user s0) = (u', Raised e) ->
  _current_tups s0 = [] ->
  _batches s0 = [] ->
  let r := run BoltClass fuel s0 in
  let rb := run BatchingBoltClass fuel s0 in
  (outcome_of r = Exit 1 /\ events_of r = [ReadHandshake; CallInitialize]) /\
  (outcome_of rb = Exit 1 /\
   events_of rb = [ReadHandshake; CallInitialize; RaiseException e []]).
Proof.
  intros H Hc Hb r rb. subst r rb.
  rewrite !(run_initialize_raises _ fuel s0 u' e H).
  cbn [cls_handle_run_exception BoltClass BatchingBoltClass].
  rewrite Bolt_handle_run_exception_eq, BatchingBolt_handle_run_exception_eq.
  unfold outcome_of, events_of.
  cbn [fst snd _current_tups _batches auto_fail set_user].
  rewrite Hc, Hb. split; split; try reflexivity.
  cbn. destruct (auto_fail s0); reflexivity.
Qed.

(** X16: whatever raises during a dispatch of a batching bolt, the
    handler reports [_current_tups], fails exactly the tuples that
    are in the buffers at that moment when [auto_fail] is set and
    none otherwise, and the process exits with status 1. *)
Theorem BatchingBolt_failure_handling k n s0 s1 ev1 sk evk s' ev' e :
  call_hook CallInitialize initialize s0 = (Ok tt, s1, ev1) ->
  run_loop BatchingBoltClass k s1 = (Ok tt, sk, evk) ->
  _run BatchingBoltClass sk = (Raise e, s', ev') ->
  let r := run BatchingBoltClass (k + S n) s0 in
  outcome_of r = Exit 1 /\
  In (RaiseException e (_current_tups s')) (events_of r) /\
  failed (sent (events_of r)) =
    if auto_fail s' then map id (List.concat (map snd (_batches s'))) else [].
Proof.
  intros Hi Hk Hr r.
  destruct (BatchingBolt_run_failed k n s0 s1 ev1 sk evk s' ev' e Hi Hk Hr)
    as (Ho & _ & Hex & Hf).
  split; [exact Ho|]. split; [exact Hex | exact Hf].
Qed.

Lemma Bolt_run_process_raises k n s0 s1 ev1 s evk tup u' e :
  call_hook CallInitialize initialize s0 = (Ok tt, s1, ev1) ->
  run_loop BoltClass k s1 = (Ok tt, s, evk) ->
  inbound (tuples_read s) = Returned tup ->
  is_heartbeat tup = false ->
  is_tick tup = false ->
  process (user s) tup = (u', Raised e) ->
  let r := run BoltClass (k + S n) s0 in
  outcome_of r = Exit 1 /\
  events_of r =
    ReadHandshake :: ev1 ++ evk ++
      [ReadTuple; CallProcess tup; RaiseException e [tup]] ++
      (if auto_fail s then [Send (MFail (id tup))] else []).
Proof.
  intros Hi Hk Hin Hh Ht Hp r. subst r.
  assert (Hr : _run BoltClass s =
               (Raise e, set_user u' (received tup s),
                [ReadTuple; CallProcess tup])).
  { rewrite (_run_data BoltClass s tup Hin Hh Ht).
    cbn [cls_process BoltClass].
    rewrite (bind_Raise _ _ _ _ _ _
               (bind_Raise _ _ _ _ _ _
                  (call_hook_raises (CallProcess tup) (fun u => process u tup)
                     (received tup s) u' e Hp))).
    reflexivity. }
  rewrite (run_raises BoltClass k n _ _ _ _ _ _ _ _ Hi Hk Hr).
  cbn [cls_handle_run_exception BoltClass].
  rewrite Bolt_handle_run_exception_eq.
  unfold outcome_of, events_of. cbn. split; reflexivity.
Qed.

(** X17: in a plain bolt, a data tuple on which [process] raises is never
    acked: it is reported, failed when [auto_fail] is set, and the
    process exits with status 1. *)
Theorem process_failure_fails_the_tuple k n s0 s1 ev1 s evk tup u' e :
  call_hook CallInitialize initialize s0 = (Ok tt, s1, ev1) ->
  run_loop BoltClass k s1 = (Ok tt, s, evk) ->
  inbound (tuples_read s) = Returned tup ->
  is_heartbeat tup = false ->
  is_tick tup = false ->
  process (user s) tup = (u', Raised e) ->
  let r := run BoltClass (k + S n) s0 in
  outcome_of r = Exit 1 /\
  events_of r =
    ReadHandshake :: ev1 ++ evk ++
      [ReadTuple; CallProcess tup; RaiseException e [tup]] ++
      (if auto_fail s then [Send (MFail (id tup))] else []).
Proof. exact (Bolt_run_process_raises k n s0 s1 ev1 s evk tup u' e). Qed.

(** ** Counting ticks *)



End Runtime.

Arguments ReadHandshake {Key}.
Arguments ReadTuple {Key}.
Arguments Send {Key} m.
Arguments ReadTaskIds {Key}.
Arguments RaiseException {Key} e tups.
Arguments Acquire {Key} l.
Arguments Release {Key} l.
Arguments CallInitialize {Key}.
Arguments CallProcess {Key} t.
Arguments CallProcessTick {Key} freq.
Arguments CallGroupKey {Key} t.
Arguments CallProcessBatch {Key} key tups.
Arguments mkBolt {Key U}.
Arguments set_current_tups {Key U} l s.
Arguments set_batches {Key U} b s.
Arguments set_tick_counter {Key U} c s.
Arguments set_tuples_read {Key U} n s.
Arguments set_task_ids_read {Key U} n s.
Arguments set_user {Key U} u s.
Arguments auto_anchor {Key U} b.
Arguments auto_ack {Key U} b.
Arguments auto_fail {Key U} b.
Arguments ticks_between_batches {Key U} b.
Arguments _current_tups {Key U} b.
Arguments _batches {Key U} b.
Arguments _tick_counter {Key U} b.
Arguments tuples_read {Key U} b.
Arguments task_ids_read {Key U} b.
Arguments user {Key U} b.
Arguments new_bolt {Key U} anchor ack_ fail_ ticks u.
Arguments outcome_of {Key U A} r.
Arguments bolt_of {Key U A} r.
Arguments events_of {Key U A} r.
Arguments sent {Key} ev.
Arguments batch_calls {Key} ev.
Arguments emit {Key U} task_ids_of tup stream_ anchors direct_task need_task_ids.
Arguments emit_many {Key U} task_ids_of tuples stream_ anchors direct_task need_task_ids.
Arguments _run {Key U} inbound c.
Arguments run_loop {Key U} inbound c fuel.
Arguments run {Key U} inbound initialize c fuel.
Arguments BoltClass {Key U} process process_tick.
Arguments BatchingBoltClass {Key} Key_eq_dec {U} group_key process_batch.
Arguments BatchingBolt_process {Key} Key_eq_dec {U} group_key tup.
Arguments BatchingBolt_process_tick {Key} Key_eq_dec {U} process_batch freq.
Arguments batch_of {Key} Key_eq_dec key d.
Arguments call_hook {Key U A} ev h.
Arguments for_each {Key U A} l body.
Arguments Bolt_process {U} u tup.
Arguments Bolt_process_tick {U} u freq.
Arguments BatchingBolt_emit {Key U} task_ids_of tup stream_ anchors direct_task.

(** * Concrete bolts *)

(** A batching bolt with the hooks as [BatchingBolt] defines them. *)
Abbreviation DefaultBatchingBolt :=
  (BatchingBoltClass GroupKey_eq_dec group_key_None process_batch_pass).

(** A bolt that groups words and whose [process_batch] raises on ["b"]. *)
Abbreviation WordBolt :=
  (BatchingBoltClass GroupKey_eq_dec group_key_first process_batch_b).

(** A plain bolt whose [process] raises on the tuple ["bad"]. *)
Abbreviation PlainBolt :=
  (BoltClass (Key := GroupKey) process_bad process_tick_pass).

(** A bolt as [__init__] leaves it, with [ticks_between_batches = 1]. *)
Abbreviation a_bolt := (new_bolt (Key := GroupKey) true true true 1 tt).

(** A bolt that holds one buffered tuple and has counted one tick. *)
Abbreviation one_buffered :=
  (mkBolt (Key := GroupKey) true true true 1 [] [(None, [t1])] 1 0 0 tt).

(** A bolt with nothing buffered whose counter is far above the threshold. *)
Abbreviation idle_bolt :=
  (mkBolt (Key := GroupKey) (U := unit) true true true 1 [] [] 5 0 0 tt).

(** * The scenario of three tuples and ticks *)

(** C2, amended: a batching bolt with the default [group_key] and
    [ticks_between_batches = 2] receives three data tuples and then
    ticks.  After the second tick the counter is 2, which does not
    exceed 2: [process_batch] has not been called and the three
    tuples are still buffered.  The third tick flushes:
    [process_batch(None, [t1, t2, t3])] is called once, then [ack] is
    sent once for each of the three tuples, and the counter is 0. *)
Theorem three_tuples_three_ticks_C2 (i1 w1 i2 w2 i3 w3 : string) :
  let t1 := word i1 w1 in
  let t2 := word i2 w2 in
  let t3 := word i3 w3 in
  let inbound := inbound_of [t1; t2; t3; tick_tuple; tick_tuple; tick_tuple] in
  let s0 : Bolt GroupKey unit := new_bolt true true true 2 tt in
  let r4 := run_loop inbound DefaultBatchingBolt 4 s0 in
  let r5 := run_loop inbound DefaultBatchingBolt 5 s0 in
  let r6 := _run inbound DefaultBatchingBolt (bolt_of r5) in
  (outcome_of r4 = Ok tt /\ batch_calls (events_of r4) = [] /\
   _tick_counter (bolt_of r4) = 1) /\
  (outcome_of r5 = Ok tt /\ batch_calls (events_of r5) = [] /\
   _tick_counter (bolt_of r5) = 2 /\
   _batches (bolt_of r5) = [(None, [t1; t2; t3])]) /\
  (outcome_of r6 = Ok tt /\
   events_of r6 =
     [ReadTuple; CallProcessBatch None [t1; t2; t3];
      Send (MAck i1); Send (MAck i2); Send (MAck i3)] /\
   _tick_counter (bolt_of r6) = 0 /\
   _batches (bolt_of r6) = []).
Proof.
  intros t1 t2 t3 inbound s0 r4 r5 r6.
  subst r6 r5 r4 s0 inbound t1 t2 t3.
  repeat split; vm_compute; reflexivity.
Qed.

(** C2 as it is stated fails: when [t1], [t2], [t3] and two ticks
    have been dispatched, [process_batch] has not been called at all
    and the counter is 2, not 0. *)
Lemma second_tick_does_not_flush :
  let inbound := inbound_of [t1; t2; t3; tick_tuple; tick_tuple] in
  let s0 : Bolt GroupKey unit := new_bolt true true true 2 tt in
  let r := run_loop inbound DefaultBatchingBolt 5 s0 in
  outcome_of r = Ok tt /\
  batch_calls (events_of r) = [] /\
  ~ In (CallProcessBatch None [t1; t2; t3]) (events_of r) /\
  _tick_counter (bolt_of r) = 2.
Proof.
  intros inbound s0 r. subst r s0 inbound.
  split; [vm_compute; reflexivity|].
  split; [vm_compute; reflexivity|].
  split; [|vm_compute; reflexivity].
  vm_compute. intros H.
  repeat (destruct H as [H|H]; [discriminate H|]). exact H.
Qed.


(** * The theorems at concrete inputs *)


Lemma emit_returns_C5_witness :
  is_sequence (PyList [PyStr "w"]) = true /\
  let r := emit (Key := GroupKey) (U := unit) no_task_ids (PyList [PyStr "w"])
             None None (Some 7) (PyBool true) a_bolt in
  outcome_of r = Ok (Some [7]) /\ List.length (sent (events_of r)) = 1%nat.
Proof.
  split; [reflexivity|].
  destruct (emit_returns_C5 GroupKey unit no_task_ids (PyList [PyStr "w"])
              None None (Some 7) (PyBool true) a_bolt eq_refl) as (HT & _ & Hone).
  split; [exact (proj1 (HT 7 eq_refl eq_refl)) | exact Hone].
Defined.

Lemma emit_anchors_C6_witness :
  is_sequence (PyList [PyStr "w"]) = true /\
  exists m,
    sent (events_of (emit (Key := GroupKey) (U := unit) no_task_ids
                       (PyList [PyStr "w"]) None
                       (Some [IsTuple t1; IsId "raw"]) None (PyBool true) a_bolt))
      = [MEmit m] /\
    msg_anchors m = ["t1"; "raw"].
Proof.
  split; [reflexivity|].
  exact (emit_anchors_C6 GroupKey unit no_task_ids (PyList [PyStr "w"]) None
           (Some [IsTuple t1; IsId "raw"]) None (PyBool true) a_bolt eq_refl).
Defined.

Lemma emit_need_task_ids_not_bool_C8_witness :
  is_sequence (PyList [PyStr "w"]) = true /\
  PyNone <> PyBool true /\ PyNone <> PyBool false /\
  outcome_of (emit (Key := GroupKey) (U := unit) no_task_ids (PyList [PyStr "w"])
                None None None PyNone a_bolt) = Ok None /\
  outcome_of (emit_many (Key := GroupKey) (U := unit) no_task_ids
                (PyList [PyList [PyInt 1]; PyList [PyInt 2]])
                None None None None a_bolt) = Ok [None; None].
Proof.
  assert (HT : PyNone <> PyBool true) by discriminate.
  assert (HF : PyNone <> PyBool false) by discriminate.
  assert (Hall : Forall (fun t => is_sequence t = true)
                   [PyList [PyInt 1]; PyList [PyInt 2]])
    by (repeat constructor).
  split; [reflexivity|]. split; [exact HT|]. split; [exact HF|].
  destruct (emit_need_task_ids_not_bool_C8 GroupKey unit no_task_ids
              (PyList [PyStr "w"]) [PyList [PyInt 1]; PyList [PyInt 2]]
              None None None PyNone a_bolt eq_refl Hall HT HF)
    as (_ & _ & Hnone & Hmany).
  split; [exact Hnone | exact Hmany].
Defined.

Ltac premise T tac := lapply T; [clear T; intros T | tac].

Lemma run_exception_C4_witness :
  let r := run (inbound_of [ta; bad_tuple]) initialize_pass PlainBolt 2 a_bolt in
  outcome_of r = Exit 1 /\
  sent (events_of r) = [MAck "1"; MFail "bad"] /\
  In (RaiseException (UserError "boom") [bad_tuple]) (events_of r).
Proof.
  epose proof (run_exception_C4 GroupKey unit (inbound_of [ta; bad_tuple])
                 initialize_pass process_bad process_tick_pass
                 1 0 a_bolt _ _ _ _ _ _ _) as T.
  premise T ltac:(vm_compute; reflexivity).
  premise T ltac:(vm_compute; reflexivity).
  premise T ltac:(vm_compute; reflexivity).
  cbv zeta in T. destruct T as (Ho & _ & Hev).
  intros r. subst r.  change (1 + 1)%nat with 2%nat in *.
  split; [exact Ho|]. rewrite Hev.
  split; [vm_compute; reflexivity|].
  vm_compute. do 7 right. left. reflexivity.
Defined.

Lemma flush_failure_C3_witness :
  let r := run (inbound_of [ta; tb; tc; tick_tuple; tick_tuple])
             initialize_pass WordBolt 5 a_bolt in
  outcome_of r = Exit 1 /\
  failed (sent (events_of r)) = ["2"; "3"] /\
  _batches (bolt_of r) = [(Some "a", []); (Some "b", [tb]); (Some "c", [tc])].
Proof.
  epose proof (flush_failure_C3 GroupKey GroupKey_eq_dec unit
                 (inbound_of [ta; tb; tc; tick_tuple; tick_tuple])
                 initialize_pass group_key_first process_batch_b
                 4 0 a_bolt _ _ _ _ tick_tuple (PyInt 1) []
                 [(Some "a", [ta])] (Some "b") [tb] [(Some "c", [tc])]
                 tt tt (UserError "boom")) as T.
  premise T ltac:(vm_compute; reflexivity).
  premise T ltac:(vm_compute; reflexivity).
  premise T ltac:(vm_compute; reflexivity).
  premise T ltac:(reflexivity).
  premise T ltac:(reflexivity).
  premise T ltac:(reflexivity).
  premise T ltac:(vm_compute; reflexivity).
  premise T ltac:(vm_compute; reflexivity).
  premise T ltac:(vm_compute; repeat constructor; simpl;
                  intuition discriminate).
  premise T ltac:(vm_compute; repeat constructor; simpl;
                  intuition discriminate).
  premise T ltac:(reflexivity).
  premise T ltac:(reflexivity).
  premise T ltac:(reflexivity).
  cbv zeta in T. destruct T as (Ho & Hf & _ & _ & Hb).
  intros r. subst r.  change (4 + 1)%nat with 5%nat in *.
  split; [exact Ho|]. split; [exact Hf | exact Hb].
Defined.

Lemma group_key_failure_C9_witness :
  let r := run (inbound_of [ta; bad_tuple]) initialize_pass WordBolt 2 a_bolt in
  outcome_of r = Exit 1 /\
  failed (sent (events_of r)) = ["1"] /\
  ~ In "bad" (failed (sent (events_of r))).
Proof.
  epose proof (group_key_failure_C9 GroupKey GroupKey_eq_dec unit
                 (inbound_of [ta; bad_tuple])
                 initialize_pass group_key_first process_batch_b
                 1 0 a_bolt _ _ _ _ bad_tuple tt IndexError) as T.
  premise T ltac:(vm_compute; reflexivity).
  premise T ltac:(vm_compute; reflexivity).
  premise T ltac:(vm_compute; reflexivity).
  premise T ltac:(reflexivity).
  premise T ltac:(reflexivity).
  premise T ltac:(reflexivity).
  premise T ltac:(reflexivity).
  cbv zeta in T. destruct T as (Ho & _ & _ & Hf & Hn).
  intros r. subst r.  change (1 + 1)%nat with 2%nat in *.
  split; [exact Ho|]. split; [exact Hf|].
  apply Hn. vm_compute. intros [H|[]]. discriminate H.
Defined.


(** * A bolt that overrides nothing *)

(** X20: [Bolt] itself, with [process] and [process_tick] as the base
    class defines them, cannot take a data tuple: [process] raises
    [NotImplementedError], the tuple is reported, failed when
    [auto_fail] is set, and the process exits with status 1. *)
Theorem plain_Bolt_cannot_process
    (Key U : Type) (inbound : nat -> Result Tuple)
    (initialize : U -> U * Result unit)
    k n (s0 s1 : Bolt Key U) ev1 s evk tup :
  call_hook CallInitialize initialize s0 = (Ok tt, s1, ev1) ->
  run_loop inbound (BoltClass Bolt_process Bolt_process_tick) k s1
    = (Ok tt, s, evk) ->
  inbound (tuples_read s) = Returned tup ->
  is_heartbeat tup = false ->
  is_tick tup = false ->
  let r := run inbound initialize (BoltClass Bolt_process Bolt_process_tick)
             (k + S n) s0 in
  outcome_of r = Exit 1 /\
  events_of r =
    ReadHandshake :: ev1 ++ evk ++
      [ReadTuple; CallProcess tup; RaiseException NotImplementedError [tup]] ++
      (if auto_fail s then [Send (MFail (id tup))] else []).
Proof.
  intros Hi Hk Hin Hh Ht.
  exact (Bolt_run_process_raises Key U inbound initialize Bolt_process
           Bolt_process_tick k n s0 s1 ev1 s evk tup (user s)
           NotImplementedError Hi Hk Hin Hh Ht eq_refl).
Qed.

(** * The further properties at concrete inputs *)

Lemma emit_many_in_order_witness :
  let r := emit_many (Key := GroupKey) (U := unit) no_task_ids
             (PyList [PyList [PyInt 1]; PyList [PyInt 2]]) None None None
             (Some (PyBool true)) a_bolt in
  emit_payloads (sent (events_of r)) = [PyList [PyInt 1]; PyList [PyInt 2]] /\
  List.length (sent (events_of r)) = 2%nat.
Proof.
  assert (Hall : Forall (fun t => is_sequence t = true)
                   [PyList [PyInt 1]; PyList [PyInt 2]])
    by (repeat constructor).
  destruct (emit_many_in_order GroupKey unit no_task_ids
              [PyList [PyInt 1]; PyList [PyInt 2]] None None None
              (Some (PyBool true)) a_bolt Hall) as (_ & Hp & Hn).
  split; [exact Hp | exact Hn].
Defined.

Lemma emit_many_stops_at_bad_payload_witness :
  let r := emit_many (Key := GroupKey) (U := unit) no_task_ids
             (PyList [PyList [PyInt 1]; PyInt 2; PyList [PyInt 3]])
             None None None None a_bolt in
  outcome_of r = Raise TypeError /\
  emit_payloads (sent (events_of r)) = [PyList [PyInt 1]].
Proof.
  assert (Hall : Forall (fun t => is_sequence t = true) [PyList [PyInt 1]])
    by (repeat constructor).
  destruct (emit_many_stops_at_bad_payload GroupKey unit no_task_ids
              [PyList [PyInt 1]] (PyInt 2) [PyList [PyInt 3]]
              None None None None a_bolt Hall eq_refl) as (Ho & Hp & _).
  split; [exact Ho | exact Hp].
Defined.

Lemma emit_reads_one_answer_witness :
  outcome_of (emit (Key := GroupKey) (U := unit) (fun n => [Z.of_nat n; 9])
                (PyList [PyStr "w"]) None None None (PyBool true) a_bolt)
    = Ok (Some [0; 9]).
Proof.
  exact (proj1 (emit_reads_one_answer GroupKey unit (fun n => [Z.of_nat n; 9])
                  (PyList [PyStr "w"]) None None a_bolt eq_refl)).
Defined.

Lemma BatchingBolt_emit_fire_and_forget_witness :
  outcome_of (BatchingBolt_emit (Key := GroupKey) (U := unit) no_task_ids
                (PyList [PyStr "w"]) None None (Some 4) a_bolt) = Ok None.
Proof.
  exact (proj1 (BatchingBolt_emit_fire_and_forget GroupKey unit no_task_ids
                  (PyList [PyStr "w"]) None None (Some 4) a_bolt eq_refl)).
Defined.

Lemma heartbeat_answers_sync_witness :
  events_of (_run (inbound_of [heartbeat_tuple]) DefaultBatchingBolt one_buffered)
    = [ReadTuple; Send MSync].
Proof.
  exact (proj1 (proj2 (heartbeat_answers_sync GroupKey unit
                         (inbound_of [heartbeat_tuple]) DefaultBatchingBolt
                         one_buffered heartbeat_tuple eq_refl eq_refl))).
Defined.

Lemma Bolt_acks_after_process_witness :
  events_of (_run (inbound_of [ta]) PlainBolt a_bolt)
    = [ReadTuple; CallProcess ta; Send (MAck "1")].
Proof.
  exact (proj1 (proj2 (Bolt_acks_after_process GroupKey unit (inbound_of [ta])
                         process_bad process_tick_pass a_bolt ta tt
                         eq_refl eq_refl eq_refl eq_refl))).
Defined.

Lemma Bolt_tick_is_not_acked_witness :
  sent (events_of (_run (inbound_of [tick_tuple]) PlainBolt a_bolt)) = [].
Proof.
  exact (proj2 (proj2 (Bolt_tick_is_not_acked GroupKey unit
                         (inbound_of [tick_tuple]) process_bad process_tick_pass
                         a_bolt tick_tuple (PyInt 1) [] tt
                         eq_refl eq_refl eq_refl eq_refl eq_refl))).
Defined.

Lemma tick_without_values_ends_the_run_witness :
  let r := run (inbound_of [ta; empty_tick]) initialize_pass PlainBolt 2 a_bolt in
  outcome_of r = Exit 1 /\
  sent (events_of r) = [MAck "1"; MFail "tick0"].
Proof.
  epose proof (tick_without_values_ends_the_run GroupKey unit
                 (inbound_of [ta; empty_tick]) initialize_pass
                 process_bad process_tick_pass 1 0 a_bolt _ _ _ _ empty_tick) as T.
  premise T ltac:(vm_compute; reflexivity).
  premise T ltac:(vm_compute; reflexivity).
  premise T ltac:(vm_compute; reflexivity).
  premise T ltac:(reflexivity).
  premise T ltac:(reflexivity).
  premise T ltac:(reflexivity).
  cbv zeta in T. destruct T as (Ho & Hev).
  intros r. subst r. change (1 + 1)%nat with 2%nat in *.
  split; [exact Ho|]. rewrite Hev. vm_compute. reflexivity.
Defined.

Lemma process_appends_to_its_group_witness :
  batch_of GroupKey_eq_dec None
    (_batches (bolt_of (BatchingBolt_process GroupKey_eq_dec group_key_None t2
                          one_buffered)))
    = [t1; t2].
Proof.
  exact (proj1 (proj2 (proj2 (process_appends_to_its_group GroupKey
           GroupKey_eq_dec unit group_key_None t2 one_buffered tt None eq_refl)))).
Defined.

Lemma BatchingBolt_acks_on_arrival_witness :
  events_of (_run (inbound_of [t2]) DefaultBatchingBolt one_buffered)
    = [ReadTuple; CallGroupKey t2; Send (MAck "t2")].
Proof.
  exact (proj1 (proj2 (BatchingBolt_acks_on_arrival GroupKey GroupKey_eq_dec unit
           (inbound_of [t2]) group_key_None process_batch_pass one_buffered t2
           tt None eq_refl eq_refl eq_refl eq_refl eq_refl))).
Defined.

Lemma flush_calls_each_group_once_witness :
  let r := BatchingBolt_process_tick GroupKey_eq_dec process_batch_pass
             (PyInt 1) one_buffered in
  batch_calls (events_of r) = [(None, [t1])] /\
  sent (events_of r) = [MAck "t1"].
Proof.
  epose proof (flush_calls_each_group_once GroupKey GroupKey_eq_dec unit
                 process_batch_pass (PyInt 1) one_buffered tt) as T.
  premise T ltac:(vm_compute; reflexivity).
  premise T ltac:(discriminate).
  premise T ltac:(reflexivity).
  cbv zeta in T. destruct T as (_ & Hc & Hs & _).
  split; [exact Hc | exact Hs].
Defined.

Lemma batching_bolt_between_dispatches_witness :
  exists s' ev,
    run_loop (inbound_of [ta; tb; tick_tuple]) WordBolt 3 a_bolt = (Ok tt, s', ev) /\
    NoDup (map fst (_batches s')) /\
    _current_tups s' = [] /\
    failed (sent ev) = [].
Proof.
  epose proof (batching_bolt_between_dispatches GroupKey GroupKey_eq_dec unit
                 (inbound_of [ta; tb; tick_tuple]) group_key_first
                 process_batch_b 3 true true true 1 tt _ _) as T.
  premise T ltac:(vm_compute; reflexivity).
  destruct T as (Hk & _ & _ & Hc & Hf).
  eexists. eexists. split; [vm_compute; reflexivity|].
  split; [exact Hk|]. split; [exact Hc | exact Hf].
Defined.

Lemma read_failure_fails_no_tuple_witness :
  let r := run (inbound_of [ta]) initialize_pass PlainBolt 2 a_bolt in
  outcome_of r = Exit 1 /\ failed (sent (events_of r)) = [].
Proof.
  epose proof (read_failure_fails_no_tuple GroupKey unit (inbound_of [ta])
                 initialize_pass process_bad process_tick_pass 1 0 a_bolt
                 _ _ _ _ _) as T.
  premise T ltac:(reflexivity).
  premise T ltac:(vm_compute; reflexivity).
  premise T ltac:(vm_compute; reflexivity).
  premise T ltac:(vm_compute; reflexivity).
  cbv zeta in T. destruct T as (Ho & _ & Hf).
  intros r. subst r. change (1 + 1)%nat with 2%nat in *.
  split; [exact Ho | exact Hf].
Defined.

Lemma initialize_failure_ends_the_run_witness :
  events_of (run (inbound_of [ta]) initialize_fails PlainBolt 3 a_bolt)
    = [ReadHandshake; CallInitialize].
Proof.
  exact (proj2 (proj1 (initialize_failure_ends_the_run GroupKey GroupKey_eq_dec
           unit (inbound_of [ta]) initialize_fails process_bad process_tick_pass
           group_key_None process_batch_pass 3 a_bolt tt
           (UserError "no connection") eq_refl eq_refl eq_refl))).
Defined.

Lemma BatchingBolt_failure_handling_witness :
  let r := run (inbound_of [ta; empty_tick]) initialize_pass WordBolt 2 a_bolt in
  outcome_of r = Exit 1 /\ failed (sent (events_of r)) = ["1"].
Proof.
  epose proof (BatchingBolt_failure_handling GroupKey GroupKey_eq_dec unit
                 (inbound_of [ta; empty_tick]) initialize_pass group_key_first
                 process_batch_b 1 0 a_bolt _ _ _ _ _ _ _) as T.
  premise T ltac:(vm_compute; reflexivity).
  premise T ltac:(vm_compute; reflexivity).
  premise T ltac:(vm_compute; reflexivity).
  cbv zeta in T. destruct T as (Ho & _ & Hf).
  intros r. subst r. change (1 + 1)%nat with 2%nat in *.
  split; [exact Ho | exact Hf].
Defined.

Lemma process_failure_fails_the_tuple_witness :
  let r := run (inbound_of [ta; bad_tuple]) initialize_pass PlainBolt 2 a_bolt in
  outcome_of r = Exit 1 /\
  sent (events_of r) = [MAck "1"; MFail "bad"].
Proof.
  epose proof (process_failure_fails_the_tuple GroupKey unit
                 (inbound_of [ta; bad_tuple]) initialize_pass
                 process_bad process_tick_pass 1 0 a_bolt _ _ _ _ bad_tuple
                 tt (UserError "boom")) as T.
  premise T ltac:(vm_compute; reflexivity).
  premise T ltac:(vm_compute; reflexivity).
  premise T ltac:(vm_compute; reflexivity).
  premise T ltac:(reflexivity).
  premise T ltac:(reflexivity).
  premise T ltac:(reflexivity).
  cbv zeta in T. destruct T as (Ho & Hev).
  intros r. subst r. change (1 + 1)%nat with 2%nat in *.
  split; [exact Ho|]. rewrite Hev. vm_compute. reflexivity.
Defined.


Lemma plain_Bolt_cannot_process_witness :
  let r := run (inbound_of [tick_tuple; ta]) initialize_pass
             (BoltClass (Key := GroupKey) Bolt_process Bolt_process_tick)
             2 a_bolt in
  outcome_of r = Exit 1 /\
  sent (events_of r) = [MFail "1"].
Proof.
  epose proof (plain_Bolt_cannot_process GroupKey unit
                 (inbound_of [tick_tuple; ta]) initialize_pass
                 1 0 a_bolt _ _ _ _ ta) as T.
  premise T ltac:(vm_compute; reflexivity).
  premise T ltac:(vm_compute; reflexivity).
  premise T ltac:(vm_compute; reflexivity).
  premise T ltac:(reflexivity).
  premise T ltac:(reflexivity).
  cbv zeta in T. destruct T as (Ho & Hev).
  intros r. subst r. change (1 + 1)%nat with 2%nat in *.
  split; [exact Ho|]. rewrite Hev. vm_compute. reflexivity.
Defined.
